(** * ChatWidget: a shallow embedding of src/components/ChatWidget/ChatWidget.jsx

    The React component is modelled as an explicit event-driven state
    machine.  The five [useState] cells form [ChatState]; everything the
    component does to the outside (calls on the supabase client, pending
    promises, the [setTimeout] timer, [console.error]) is threaded through
    a [World] record.  JavaScript strings are represented by their UTF-8
    bytes in [string]. *)

From Stdlib Require Import ZArith List String Ascii Bool Lia Sorted.
From Stdlib Require Import Decimal DecimalString DecimalZ DecimalPos.
Import ListNotations.
Open Scope string_scope.
Open Scope Z_scope.

(** ** JavaScript values that occur as a row id *)

Module Js.

(** [payload.new.id] is whatever the server put in the row: absent,
    null, a number (bigint/serial key) or a string (uuid). *)
Inductive value : Type :=
| Undefined
| Null
| Num (n : Z)
| Str (s : string).

(** [a === b] *)
Definition strict_eq (a b : value) : bool :=
  match a, b with
  | Undefined, Undefined => true
  | Null, Null => true
  | Num x, Num y => Z.eqb x y
  | Str x, Str y => String.eqb x y
  | _, _ => false
  end.

(** [!!a] *)
Definition truthy (a : value) : bool :=
  match a with
  | Undefined => false
  | Null => false
  | Num n => negb (Z.eqb n 0)
  | Str s => negb (String.eqb s "")
  end.

End Js.

(** ** Strings *)

(** The double-quote character, U+0022. *)
Definition dquote : string := String (ascii_of_nat 34) EmptyString.

Definition bytes_of (l : list nat) : string :=
  fold_right (fun n s => String (ascii_of_nat n) s) EmptyString l.

Fixpoint drop (n : nat) (s : string) : string :=
  match n, s with
  | O, _ => s
  | S n', String _ r => drop n' r
  | S _, EmptyString => EmptyString
  end.

Fixpoint rev_string (acc s : string) : string :=
  match s with
  | EmptyString => acc
  | String c r => rev_string (String c acc) r
  end.

(** ECMAScript WhiteSpace and LineTerminator code points, as UTF-8:
    TAB LF VT FF CR SP, U+00A0, U+1680, U+2000..U+200A, U+2028, U+2029,
    U+202F, U+205F, U+3000, U+FEFF. *)
Definition white1 (a : nat) : bool :=
  (Nat.leb 9 a && Nat.leb a 13) || Nat.eqb a 32.

Definition white2 (a b : nat) : bool :=
  Nat.eqb a 194 && Nat.eqb b 160.

Definition white3 (a b c : nat) : bool :=
  (Nat.eqb a 225 && Nat.eqb b 154 && Nat.eqb c 128)
  || (Nat.eqb a 226 && Nat.eqb b 128
      && ((Nat.leb 128 c && Nat.leb c 138) || Nat.eqb c 168
          || Nat.eqb c 169 || Nat.eqb c 175))
  || (Nat.eqb a 226 && Nat.eqb b 129 && Nat.eqb c 159)
  || (Nat.eqb a 227 && Nat.eqb b 128 && Nat.eqb c 128)
  || (Nat.eqb a 239 && Nat.eqb b 187 && Nat.eqb c 191).

(** Number of bytes of the white-space character [s] starts with, 0 if
    it starts with none. *)
Definition white_prefix (s : string) : nat :=
  match s with
  | EmptyString => 0%nat
  | String a r =>
      if white1 (nat_of_ascii a) then 1%nat else
      match r with
      | EmptyString => 0%nat
      | String b r' =>
          if white2 (nat_of_ascii a) (nat_of_ascii b) then 2%nat else
          match r' with
          | EmptyString => 0%nat
          | String c _ =>
              if white3 (nat_of_ascii a) (nat_of_ascii b) (nat_of_ascii c)
              then 3%nat else 0%nat
          end
      end
  end.

(** The same on a reversed string: the character [s] ended with. *)
Definition white_suffix_rev (s : string) : nat :=
  match s with
  | EmptyString => 0%nat
  | String c r =>
      if white1 (nat_of_ascii c) then 1%nat else
      match r with
      | EmptyString => 0%nat
      | String b r' =>
          if white2 (nat_of_ascii b) (nat_of_ascii c) then 2%nat else
          match r' with
          | EmptyString => 0%nat
          | String a _ =>
              if white3 (nat_of_ascii a) (nat_of_ascii b) (nat_of_ascii c)
              then 3%nat else 0%nat
          end
      end
  end.

Fixpoint strip (prefix : string -> nat) (fuel : nat) (s : string) : string :=
  match fuel with
  | O => s
  | S fuel' =>
      match prefix s with
      | O => s
      | k => strip prefix fuel' (drop k s)
      end
  end.

Definition trimStart (s : string) : string :=
  strip white_prefix (String.length s) s.

Definition trimEnd (s : string) : string :=
  rev_string "" (strip white_suffix_rev (String.length s) (rev_string "" s)).

(** [String.prototype.trim] *)
Definition trim (s : string) : string := trimEnd (trimStart s).

(** ** Data model *)

Definition MESSAGES_TABLE : string := "messages".

(** A row of the messages table as the client sees it (the result of the
    select, or [payload.new] of an INSERT notification). *)
Record Message : Type := mkMessage {
  id : Js.value;
  text : string;
  sender : string;
  timestamp : string
}.

(** The five [useState] cells of the component. *)
Record ChatState : Type := mkChatState {
  messages : list Message;
  inputValue : string;
  isOpen : bool;
  loading : bool;
  error : option string
}.

(** [useState([])], [useState('')], [useState(false)], [useState(true)],
    [useState(null)] *)
Definition initialState : ChatState :=
  mkChatState [] "" false true None.

(** [!!error] on a cell that holds null or a string. *)
Definition errorSet (st : ChatState) : bool :=
  match error st with
  | None => false
  | Some s => negb (String.eqb s "")
  end.

(** ** The subscription callback (lines 77-85) *)

(** [prevMessages.find(msg => msg.id === payload.new.id)]: an entry is an
    object, hence truthy, so the test succeeds exactly when one is found. *)
Definition findById (prevMessages : list Message) (i : Js.value) : option Message :=
  find (fun msg => Js.strict_eq (id msg) i) prevMessages.

(** The updater handed to [setMessages]. *)
Definition onRemoteInsert (prevMessages : list Message) (payloadNew : Message)
  : list Message :=
  match findById prevMessages (id payloadNew) with
  | Some _ => prevMessages
  | None => prevMessages ++ [payloadNew]
  end.

(** A run of deliveries, oldest first. *)
Definition deliver (prevMessages : list Message) (events : list Message)
  : list Message :=
  fold_left onRemoteInsert events prevMessages.

(** ** Platform functions

    [Date.prototype.toISOString], the [Date(string)] constructor and
    [Date.prototype.toLocaleTimeString] belong to the JavaScript engine;
    the last one depends on the host's locale and time zone.  An instant
    is its number of milliseconds since the epoch. *)

Record TimeOptions : Type := mkTimeOptions {
  hour12 : option bool;
  hour : option string;
  minute : option string;
  second : option string
}.

Class Platform : Type := {
  toISOString : Z -> string;
  parseDate : string -> option Z;
  toLocaleTimeString : TimeOptions -> Z -> string
}.

(** ** The outside world *)

(** The object literal passed to [.insert([...])]. *)
Record InsertRow : Type := mkInsertRow {
  row_text : string;
  row_sender : string;
  row_timestamp : string
}.

(** Calls made on the supabase client. *)
Inductive RemoteCall : Type :=
| Select (table columns orderColumn : string) (ascending : bool)
| Insert (table : string) (rows : list InsertRow)
| Subscribe (channel : nat) (name event schema table : string)
| RemoveChannel (channel : nat).

(** What the awaited query promise settles to: [{ data, error }], or a
    rejection caught by the [catch] clause. *)
Inductive FetchResponse : Type :=
| FetchResolved (data : option (list Message)) (fetchError : option string)
| FetchRejected (err : string).

Inductive InsertResponse : Type :=
| InsertResolved (saveError : option string)
| InsertRejected (err : string).

(** [userMessage] and [botResponse]: their timestamp is a [Date]. *)
Record LocalMessage : Type := mkLocalMessage {
  local_text : string;
  local_sender : string;
  local_timestamp : Z
}.

(** The rest of an async function suspended at
    [await saveMessageToSupabase(...)]. *)
Inductive Continuation : Type :=
| AfterUserSave (currentInput : string)
| AfterBotSave.

(** A pending [setTimeout] callback with the [currentInput] it closes over. *)
Record Timer : Type := mkTimer {
  timer_due : Z;
  timer_input : string
}.

Record World : Type := mkWorld {
  now : Z;                               (* logical clock, ms *)
  ui : ChatState;
  cleanup : option nat;                  (* channel held by the effect's cleanup *)
  fresh : nat;                           (* next request / channel number *)
  calls : list (Z * RemoteCall);         (* calls issued so far, with their time *)
  channels : list nat;                   (* subscribed and not yet removed *)
  fetches : list nat;                    (* selects awaiting their response *)
  inserts : list (nat * Continuation);   (* inserts awaiting their response *)
  timers : list Timer;
  console : list string                  (* console.error *)
}.

Definition initialWorld : World :=
  mkWorld 0 initialState None 0 [] [] [] [] [] [].

Definition with_ui (f : ChatState -> ChatState) (w : World) : World :=
  mkWorld (now w) (f (ui w)) (cleanup w) (fresh w) (calls w) (channels w)
          (fetches w) (inserts w) (timers w) (console w).

Definition setMessages (f : list Message -> list Message) : World -> World :=
  with_ui (fun st => mkChatState (f (messages st)) (inputValue st) (isOpen st)
                                 (loading st) (error st)).

Definition setInputValue (v : string) : World -> World :=
  with_ui (fun st => mkChatState (messages st) v (isOpen st) (loading st) (error st)).

Definition setIsOpen (f : bool -> bool) : World -> World :=
  with_ui (fun st => mkChatState (messages st) (inputValue st) (f (isOpen st))
                                 (loading st) (error st)).

Definition setLoading (b : bool) : World -> World :=
  with_ui (fun st => mkChatState (messages st) (inputValue st) (isOpen st) b (error st)).

Definition setError (e : option string) : World -> World :=
  with_ui (fun st => mkChatState (messages st) (inputValue st) (isOpen st) (loading st) e).

Definition set_now (t : Z) (w : World) : World :=
  mkWorld t (ui w) (cleanup w) (fresh w) (calls w) (channels w)
          (fetches w) (inserts w) (timers w) (console w).

Definition set_cleanup (c : option nat) (w : World) : World :=
  mkWorld (now w) (ui w) c (fresh w) (calls w) (channels w)
          (fetches w) (inserts w) (timers w) (console w).

Definition bump (w : World) : World :=
  mkWorld (now w) (ui w) (cleanup w) (S (fresh w)) (calls w) (channels w)
          (fetches w) (inserts w) (timers w) (console w).

Definition issue (c : RemoteCall) (w : World) : World :=
  mkWorld (now w) (ui w) (cleanup w) (fresh w) (calls w ++ [(now w, c)]) (channels w)
          (fetches w) (inserts w) (timers w) (console w).

Definition set_channels (l : list nat) (w : World) : World :=
  mkWorld (now w) (ui w) (cleanup w) (fresh w) (calls w) l
          (fetches w) (inserts w) (timers w) (console w).

Definition set_fetches (l : list nat) (w : World) : World :=
  mkWorld (now w) (ui w) (cleanup w) (fresh w) (calls w) (channels w)
          l (inserts w) (timers w) (console w).

Definition set_inserts (l : list (nat * Continuation)) (w : World) : World :=
  mkWorld (now w) (ui w) (cleanup w) (fresh w) (calls w) (channels w)
          (fetches w) l (timers w) (console w).

Definition set_timers (l : list Timer) (w : World) : World :=
  mkWorld (now w) (ui w) (cleanup w) (fresh w) (calls w) (channels w)
          (fetches w) (inserts w) l (console w).

Definition console_error (s : string) (w : World) : World :=
  mkWorld (now w) (ui w) (cleanup w) (fresh w) (calls w) (channels w)
          (fetches w) (inserts w) (timers w) (console w ++ [s]).

(** ** The view's vocabulary *)

Record Span : Type := mkSpan {
  className : string;
  content : string
}.

(** [key={msg.id || `${msg.sender}-${msg.text}-${msg.timestamp}`}]: the
    value of the key expression.  React compares the keys of siblings
    as strings ([reactKey]). *)
Inductive Key : Type :=
| KeyId (v : Js.value)
| KeyText (s : string).

Record Entry : Type := mkEntry {
  key : option Key;
  spans : list Span
}.

(** [renderMessages] returns one element or the array built by [map]. *)
Inductive Rendered : Type :=
| One (e : Entry)
| Mapped (l : list Entry).

(** User intents, settled promises, pushed rows and the passage of time. *)
Inductive Event : Type :=
| ClickOpen
| ClickClose
| InputChange (value : string)
| SubmitForm
| KeyPress (pressed : string) (shiftKey : bool)
| FetchDone (request : nat) (resp : FetchResponse)
| InsertDone (request : nat) (resp : InsertResponse)
| RemoteInsert (channel : nat) (payloadNew : Message)
| Elapse (dt : Z).

Definition lookup_insert (r : nat) (l : list (nat * Continuation))
  : option Continuation :=
  option_map snd (find (fun p => Nat.eqb (fst p) r) l).

Definition remove_insert (r : nat) (l : list (nat * Continuation))
  : list (nat * Continuation) :=
  filter (fun p => negb (Nat.eqb (fst p) r)) l.

Definition mem (n : nat) (l : list nat) : bool := existsb (Nat.eqb n) l.

Definition remove_nat (n : nat) (l : list nat) : list nat :=
  filter (fun m => negb (Nat.eqb m n)) l.

Section Component.

Context {platform : Platform}.

(** *** fetchMessages (lines 35-57) *)

(** Up to the [await]. *)
Definition fetchMessages (w : World) : World :=
  let w := setLoading true w in
  let w := setError None w in
  let w := issue (Select MESSAGES_TABLE "*" "timestamp" true) w in
  bump (set_fetches (fetches w ++ [fresh w]) w).

(** From the [await] on. *)
Definition fetchMessagesSettled (resp : FetchResponse) (w : World) : World :=
  let w :=
    match resp with
    | FetchResolved data (Some fetchError) =>
        let w := console_error "Error fetching messages:" w in
        let w := setError (Some "채팅 기록을 불러오는 데 실패했습니다.") w in
        setMessages (fun _ => []) w
    | FetchResolved data None =>
        setMessages (fun _ => match data with Some d => d | None => [] end) w
    | FetchRejected err =>
        let w := console_error "Unexpected error fetching messages:" w in
        let w := setError (Some "알 수 없는 오류로 채팅 기록을 불러올 수 없습니다.") w in
        setMessages (fun _ => []) w
    end in
  setLoading false w.

(** *** The open/close effect (lines 68-98) *)

Definition subscribe (w : World) : World :=
  let channel := fresh w in
  let w := issue (Subscribe channel "chat-messages" "INSERT" "public" MESSAGES_TABLE) w in
  let w := set_channels (channels w ++ [channel]) w in
  set_cleanup (Some channel) (bump w).

Definition removeChannel (channel : nat) (w : World) : World :=
  let w := issue (RemoveChannel channel) w in
  set_channels (remove_nat channel (channels w)) w.

(** React runs the previous cleanup, then the effect body, whenever
    [isOpen] differs from the last render ([fetchMessages] never does). *)
Definition openEffect (w : World) : World :=
  let w :=
    match cleanup w with
    | Some channel => removeChannel channel (set_cleanup None w)
    | None => w
    end in
  if isOpen (ui w) then subscribe (fetchMessages w) else w.

(** *** toggleChat (lines 179-181) *)
Definition toggleChat (w : World) : World :=
  openEffect (setIsOpen negb w).

(** *** handleInputChange (lines 103-105) *)
Definition handleInputChange (value : string) (w : World) : World :=
  setInputValue value w.

(** *** saveMessageToSupabase (lines 110-130) *)

(** Up to the [await]; [k] is what the caller does once the returned
    promise resolves. *)
Definition saveMessageToSupabase (messageToSave : LocalMessage)
    (k : Continuation) (w : World) : World :=
  let row := mkInsertRow (local_text messageToSave) (local_sender messageToSave)
                         (toISOString (local_timestamp messageToSave)) in
  let w := issue (Insert MESSAGES_TABLE [row]) w in
  bump (set_inserts (inserts w ++ [(fresh w, k)]) w).

(** From the [await] on: every outcome ends in a fulfilled promise. *)
Definition saveMessageSettled (resp : InsertResponse) (w : World) : World :=
  match resp with
  | InsertResolved (Some saveError) => console_error "Error saving message:" w
  | InsertResolved None => w
  | InsertRejected err => console_error "Unexpected error saving message:" w
  end.

(** *** handleSendMessage (lines 135-164) *)

Definition botText (currentInput : string) : string :=
  dquote ++ currentInput ++ dquote ++ " 라고 입력하셨습니다. 저는 고전적인 봇입니다.".

(** Up to [await saveMessageToSupabase(userMessage)]. *)
Definition handleSendMessage (w : World) : World :=
  let trimmedInput := trim (inputValue (ui w)) in
  if String.eqb trimmedInput "" then w else
  let userMessage := mkLocalMessage trimmedInput "user" (now w) in
  saveMessageToSupabase userMessage (AfterUserSave trimmedInput) w.

(** What follows an [await saveMessageToSupabase(...)]. *)
Definition resume (k : Continuation) (w : World) : World :=
  match k with
  | AfterUserSave currentInput =>
      let w := setInputValue "" w in
      set_timers (timers w ++ [mkTimer (now w + 1000) currentInput]) w
  | AfterBotSave => w
  end.

(** The [setTimeout] callback; it runs when the clock reaches its due time. *)
Definition botReply (tm : Timer) (w : World) : World :=
  let w := set_now (Z.max (now w) (timer_due tm)) w in
  let botResponse := mkLocalMessage (botText (timer_input tm)) "bot" (now w) in
  saveMessageToSupabase botResponse AfterBotSave w.

(** *** handleKeyPress (lines 169-174) *)
Definition handleKeyPress (pressed : string) (shiftKey : bool) (w : World) : World :=
  if String.eqb pressed "Enter" && negb shiftKey then handleSendMessage w else w.

(** *** renderMessages (lines 184-236) and the form's [disabled] attributes *)

Definition timeOptions : TimeOptions :=
  mkTimeOptions (Some false) (Some "2-digit") (Some "2-digit") None.

Definition localeTime (d : option Z) : string :=
  match d with
  | Some t => toLocaleTimeString timeOptions t
  | None => "Invalid Date"
  end.

Definition renderKey (msg : Message) : Key :=
  if Js.truthy (id msg) then KeyId (id msg)
  else KeyText (sender msg ++ "-" ++ text msg ++ "-" ++ timestamp msg).

Definition renderEntry (msg : Message) : Entry :=
  mkEntry (Some (renderKey msg))
    [ mkSpan (if String.eqb (sender msg) "user"
              then "message-sender-user" else "message-sender-bot")
             (if String.eqb (sender msg) "user" then "나:" else "봇:");
      mkSpan "message-text" (text msg);
      mkSpan "message-timestamp"
             ("(" ++ localeTime (parseDate (timestamp msg)) ++ ")") ].

Definition loadingPlaceholder : Entry :=
  mkEntry None [ mkSpan "message-text" "채팅 기록을 불러오는 중입니다..." ].

Definition errorPlaceholder (e : string) : Entry :=
  mkEntry None [ mkSpan "message-sender-bot" "봇:"; mkSpan "message-text" e ].

Definition greeting (current : Z) : Entry :=
  mkEntry None
    [ mkSpan "message-sender-bot" "봇:";
      mkSpan "message-text"
             "안녕하세요! 고전 스타일 채팅 위젯입니다. 무엇을 도와드릴까요?";
      mkSpan "message-timestamp" ("(" ++ localeTime (Some current) ++ ")") ].

Definition renderMessages (st : ChatState) (current : Z) : Rendered :=
  if loading st then One loadingPlaceholder else
  match error st with
  | Some e =>
      if negb (String.eqb e "") then One (errorPlaceholder e)
      else if Nat.eqb (List.length (messages st)) 0 then One (greeting current)
      else Mapped (map renderEntry (messages st))
  | None =>
      if Nat.eqb (List.length (messages st)) 0 then One (greeting current)
      else Mapped (map renderEntry (messages st))
  end.

(** [disabled={loading || !!error}] *)
Definition inputDisabled (st : ChatState) : bool :=
  loading st || errorSet st.

(** [disabled={inputValue.trim() === '' || loading || !!error}] *)
Definition sendDisabled (st : ChatState) : bool :=
  String.eqb (trim (inputValue st)) "" || loading st || errorSet st.

(** *** Time *)

Definition fire (l : list Timer) (w : World) : World :=
  fold_left (fun w tm => botReply tm w) l w.

(** [dt] milliseconds pass: the timers that come due fire, in the order
    they were set, each at its due time. *)
Definition elapse (dt : Z) (w : World) : World :=
  if dt <? 0 then w else
  let target := now w + dt in
  let due := filter (fun tm => timer_due tm <=? target) (timers w) in
  let later := filter (fun tm => negb (timer_due tm <=? target)) (timers w) in
  set_now target (fire due (set_timers later w)).

(** *** One event *)

(** An intent reaches its handler only through an element that is
    rendered and not disabled; a response is taken only for a promise that
    is pending; a pushed row only on a channel that is subscribed.
    [KeyPress] is the [onKeyPress] handler alone: the submission of the
    form that the browser performs for an Enter whose default was not
    prevented is a [SubmitForm] of its own ([pressKey] puts the two
    together). *)
Definition step (w : World) (e : Event) : World :=
  match e with
  | ClickOpen =>
      if isOpen (ui w) then w else toggleChat w
  | ClickClose =>
      if isOpen (ui w) then toggleChat w else w
  | InputChange value =>
      if isOpen (ui w) && negb (inputDisabled (ui w))
      then handleInputChange value w else w
  | SubmitForm =>
      if isOpen (ui w) && negb (sendDisabled (ui w))
      then handleSendMessage w else w
  | KeyPress pressed shiftKey =>
      if isOpen (ui w) && negb (inputDisabled (ui w))
      then handleKeyPress pressed shiftKey w else w
  | FetchDone r resp =>
      if mem r (fetches w)
      then fetchMessagesSettled resp (set_fetches (remove_nat r (fetches w)) w)
      else w
  | InsertDone r resp =>
      match lookup_insert r (inserts w) with
      | Some k =>
          resume k (saveMessageSettled resp
                      (set_inserts (remove_insert r (inserts w)) w))
      | None => w
      end
  | RemoteInsert channel payloadNew =>
      if mem channel (channels w)
      then setMessages (fun prevMessages => onRemoteInsert prevMessages payloadNew) w
      else w
  | Elapse dt => elapse dt w
  end.

Definition run (w : World) (es : list Event) : World := fold_left step es w.

(** Worlds the component can be in. *)
Definition reachable (w : World) : Prop := exists es, w = run initialWorld es.

(** *** Reading the call log *)

Definition is_select (c : Z * RemoteCall) : bool :=
  match snd c with Select _ _ _ _ => true | _ => false end.

Definition is_insert (c : Z * RemoteCall) : bool :=
  match snd c with Insert _ _ => true | _ => false end.

Definition is_subscribe (c : Z * RemoteCall) : bool :=
  match snd c with Subscribe _ _ _ _ _ => true | _ => false end.

Definition selects (w : World) : list (Z * RemoteCall) := filter is_select (calls w).
Definition persists (w : World) : list (Z * RemoteCall) := filter is_insert (calls w).
Definition subscriptions (w : World) : list (Z * RemoteCall) :=
  filter is_subscribe (calls w).

(** The insert call that persists [{text, sender}] with the clock at [t]. *)
Definition persistCall (t : Z) (text sender : string) : Z * RemoteCall :=
  (t, Insert MESSAGES_TABLE [mkInsertRow text sender (toISOString t)]).

End Component.

(** ** A host to run the model on

    UTC, proleptic Gregorian calendar; the locale renders the hour and the
    minute with two digits each on a 24-hour clock, whatever was asked. *)

Module Host.

Fixpoint digits (k : nat) (n : Z) : string :=
  match k with
  | O => ""
  | S k' => digits k' (n / 10) ++ String (ascii_of_nat (48 + Z.to_nat (n mod 10))) ""
  end.

(** Day number since 1970-01-01 to (year, month, day). *)
Definition civil_from_days (z0 : Z) : Z * Z * Z :=
  let z := z0 + 719468 in
  let era := z / 146097 in
  let doe := z - era * 146097 in
  let yoe := (doe - doe / 1460 + doe / 36524 - doe / 146096) / 365 in
  let doy := doe - (365 * yoe + yoe / 4 - yoe / 100) in
  let mp := (5 * doy + 2) / 153 in
  let d := doy - (153 * mp + 2) / 5 + 1 in
  let m := if mp <? 10 then mp + 3 else mp - 9 in
  let y := yoe + era * 400 + (if m <=? 2 then 1 else 0) in
  (y, m, d).

Definition days_from_civil (y0 m d : Z) : Z :=
  let y := if m <=? 2 then y0 - 1 else y0 in
  let era := y / 400 in
  let yoe := y - era * 400 in
  let mp := if m <=? 2 then m + 9 else m - 3 in
  let doy := (153 * mp + 2) / 5 + d - 1 in
  let doe := yoe * 365 + yoe / 4 - yoe / 100 + doy in
  era * 146097 + doe - 719468.

Definition hourMinute (t : Z) : string :=
  digits 2 ((t / 3600000) mod 24) ++ ":" ++ digits 2 ((t / 60000) mod 60).

(** Four digits for the years 0 to 9999, a sign and six digits otherwise. *)
Definition year (y : Z) : string :=
  if (0 <=? y) && (y <=? 9999) then digits 4 y
  else (if y <? 0 then "-" else "+") ++ digits 6 (Z.abs y).

Definition isoString (t : Z) : string :=
  let '(y, m, d) := civil_from_days (t / 86400000) in
  year y ++ "-" ++ digits 2 m ++ "-" ++ digits 2 d ++ "T" ++ hourMinute t
  ++ ":" ++ digits 2 ((t / 1000) mod 60) ++ "." ++ digits 3 (t mod 1000) ++ "Z".

Fixpoint number (acc : Z) (s : string) : option Z :=
  match s with
  | EmptyString => Some acc
  | String c r =>
      let n := nat_of_ascii c in
      if Nat.leb 48 n && Nat.leb n 57
      then number (10 * acc + Z.of_nat (n - 48)) r
      else None
  end.

Definition field (from len : nat) (s : string) : option Z :=
  if Nat.eqb (String.length (substring from len s)) len
  then number 0 (substring from len s) else None.

(** The digits of a fraction of a second, as milliseconds (digits after
    the third are dropped), and what follows them. *)
Fixpoint fraction (scale acc : Z) (s : string) : Z * string :=
  match s with
  | EmptyString => (acc, s)
  | String c r =>
      let n := nat_of_ascii c in
      if Nat.leb 48 n && Nat.leb n 57
      then fraction (scale / 10) (acc + scale * Z.of_nat (n - 48)) r
      else (acc, s)
  end.

(** The zone designator, as the offset from UTC in milliseconds: [Z],
    [+hh:mm] or [-hh:mm]; without one the time is local, which here is
    UTC. *)
Definition zone (s : string) : option Z :=
  match s with
  | EmptyString => Some 0
  | String c r =>
      if Ascii.eqb c "Z"
      then match r with EmptyString => Some 0 | _ => None end
      else if Ascii.eqb c "+" || Ascii.eqb c "-"
      then if Nat.eqb (String.length r) 5
           then match field 0 2 r, field 3 2 r with
                | Some hh, Some mm =>
                    Some ((if Ascii.eqb c "-" then -1 else 1) * (hh * 60 + mm) * 60000)
                | _, _ => None
                end
           else None
      else None
  end.

(** Reads [YYYY-MM-DDTHH:MM:SS], an optional fraction and an optional
    zone designator. *)
Definition parse (s : string) : option Z :=
  match field 0 4 s, field 5 2 s, field 8 2 s,
        field 11 2 s, field 14 2 s, field 17 2 s with
  | Some y, Some m, Some d, Some hh, Some mm, Some ss =>
      let '(ms, rest) :=
        match substring 19 (String.length s) s with
        | String c r => if Ascii.eqb c "." then fraction 100 0 r else (0, String c r)
        | EmptyString => (0, EmptyString)
        end in
      match zone rest with
      | Some offset =>
          Some (days_from_civil y m d * 86400000
                + hh * 3600000 + mm * 60000 + ss * 1000 + ms - offset)
      | None => None
      end
  | _, _, _, _, _, _ => None
  end.

End Host.

#[export] Instance utcHost : Platform := {|
  toISOString := Host.isoString;
  parseDate := Host.parse;
  toLocaleTimeString := fun _ t => Host.hourMinute t
|}.

(** ** Sample data *)

Definition rowA : Message := mkMessage (Js.Num 1) "hi" "bot" "2024-05-01T12:34:56.789+00:00".
Definition rowB : Message := mkMessage (Js.Num 2) "hello" "user" "2024-05-01T12:35:10.000+00:00".


(** ** Invariant of the reachable worlds *)

Definition due_order (a b : Timer) : Prop := timer_due a <= timer_due b.

Record wf (w : World) : Prop := mkWf {
  wf_inserts : Forall (fun p => (fst p < fresh w)%nat) (inserts w);
  wf_timers : Forall (fun tm => now w < timer_due tm <= now w + 1000) (timers w);
  wf_sorted : StronglySorted due_order (timers w);
  wf_channels : channels w = match cleanup w with Some c => [c] | None => [] end;
  wf_open : isOpen (ui w) = match cleanup w with Some _ => true | None => false end;
  wf_error : error (ui w) <> Some ""
}.

(** The insert calls made by a list of timers firing, each at its due time. *)
Definition fired `{Platform} (l : list Timer) : list (Z * RemoteCall) :=
  map (fun tm => persistCall (timer_due tm) (botText (timer_input tm)) "bot") l.

(** The widget opened over an empty history, and with a draft typed in. *)
Definition ready : World :=
  run initialWorld [ClickOpen; FetchDone 0 (FetchResolved (Some []) None)].

Definition typed (draft : string) : World := step ready (InputChange draft).

(** The same draft, the widget closed and opened again: the history is
    being fetched anew. *)
Definition reloading (draft : string) : World :=
  run (typed draft) [ClickClose; ClickOpen].

(** Events that bring rows from the store. *)
Definition from_store (e : Event) : bool :=
  match e with
  | RemoteInsert _ _ => true
  | FetchDone _ _ => true
  | _ => false
  end.

(** Events that can write the draft. *)
Definition writes_draft (e : Event) : bool :=
  match e with
  | InputChange _ => true
  | InsertDone _ _ => true
  | _ => false
  end.

(** What [console.error] is given when a save settles. *)
Definition saveLog (resp : InsertResponse) : list string :=
  match resp with
  | InsertResolved None => []
  | InsertResolved (Some _) => ["Error saving message:"]
  | InsertRejected _ => ["Unexpected error saving message:"]
  end.

(** Clicks on the open and close buttons. *)
Definition is_toggle (e : Event) : bool :=
  match e with
  | ClickOpen => true
  | ClickClose => true
  | _ => false
  end.

(** The state after a fetch, by outcome. *)
Definition fetchFailed : string := "채팅 기록을 불러오는 데 실패했습니다.".
Definition fetchCrashed : string := "알 수 없는 오류로 채팅 기록을 불러올 수 없습니다.".

Definition selectAll : RemoteCall := Select MESSAGES_TABLE "*" "timestamp" true.

Definition subscribeTo (channel : nat) : RemoteCall :=
  Subscribe channel "chat-messages" "INSERT" "public" MESSAGES_TABLE.

(** ** Further vocabulary for the call log and the pending work *)

Definition is_remove (c : Z * RemoteCall) : bool :=
  match snd c with RemoveChannel _ => true | _ => false end.

(** Channels subscribed and channels removed so far, oldest first. *)
Definition subscribed (w : World) : list nat :=
  flat_map (fun c => match snd c with Subscribe channel _ _ _ _ => [channel] | _ => [] end)
           (calls w).

Definition removed (w : World) : list nat :=
  flat_map (fun c => match snd c with RemoveChannel channel => [channel] | _ => [] end)
           (calls w).

(** Insert calls by the sender of their rows. *)
Definition persists_by (who : string) (cs : list (Z * RemoteCall)) : list (Z * RemoteCall) :=
  filter (fun c => match snd c with
                   | Insert _ rows => forallb (fun row => String.eqb (row_sender row) who) rows
                   | _ => false
                   end) cs.

(** Inserts of user messages whose response is awaited. *)
Definition awaited_user_saves (l : list (nat * Continuation)) : list (nat * Continuation) :=
  filter (fun p => match snd p with AfterUserSave _ => true | AfterBotSave => false end) l.

(** Events other than a click on the open button. *)
Definition is_open_click (e : Event) : bool :=
  match e with ClickOpen => true | _ => false end.

(** All subscriptions but the active ones have been removed, and every
    query of the history went with a subscription. *)
Definition balanced `{Platform} (w : World) : Prop :=
  subscribed w = (removed w ++ channels w)%list
  /\ List.length (selects w) = List.length (subscribed w).

(** A fetch is in flight whenever the loading flag is up, except before
    the first query. *)
Definition loading_backed `{Platform} (w : World) : Prop :=
  (loading (ui w) = true -> fetches w <> [] \/ selects w = [])
  /\ (isOpen (ui w) = true -> selects w <> []).

(** A text the widget sends: a draft trimmed, and not empty. *)
Definition sent_text (s : string) : Prop :=
  s <> "" /\ exists draft, s = trim draft.

(** The shape of a call the widget makes, [fst c] being its time. *)
Definition well_formed_call `{Platform} (c : Z * RemoteCall) : Prop :=
  match snd c with
  | Select table columns orderColumn ascending =>
      table = "messages" /\ columns = "*" /\ orderColumn = "timestamp" /\ ascending = true
  | Insert table rows =>
      table = "messages"
      /\ exists text sender,
           rows = [mkInsertRow text sender (toISOString (fst c))]
           /\ ((sender = "user" /\ sent_text text)
               \/ (sender = "bot"
                   /\ exists s,
                        sent_text s
                        /\ text = String (ascii_of_nat 34)
                                    (s ++ String (ascii_of_nat 34)
                                            " 라고 입력하셨습니다. 저는 고전적인 봇입니다.")))
  | Subscribe _ name event schema table =>
      name = "chat-messages" /\ event = "INSERT" /\ schema = "public" /\ table = "messages"
  | RemoveChannel _ => True
  end.

Definition sending_ok `{Platform} (w : World) : Prop :=
  Forall well_formed_call (calls w)
  /\ Forall (fun tm => sent_text (timer_input tm)) (timers w)
  /\ Forall (fun p => match snd p with
                      | AfterUserSave s => sent_text s
                      | AfterBotSave => True
                      end) (inserts w).

(** Every user insert is awaiting its response, or has its bot reply
    scheduled, or has had it issued. *)
Definition conserved (w : World) : Prop :=
  List.length (persists_by "user" (calls w))
  = (List.length (awaited_user_saves (inserts w)) + List.length (timers w)
     + List.length (persists_by "bot" (calls w)))%nat.

Definition keys_ok (w : World) : Prop :=
  NoDup (map fst (inserts w))
  /\ Forall (fun p => (fst p < fresh w)%nat) (inserts w).

(** Strings made of white space and line terminators only. *)
Inductive Blank : string -> Prop :=
| Blank_empty : Blank ""
| Blank_one (a : ascii) (r : string) :
    white1 (nat_of_ascii a) = true -> Blank r -> Blank (String a r)
| Blank_two (a b : ascii) (r : string) :
    white2 (nat_of_ascii a) (nat_of_ascii b) = true ->
    Blank r -> Blank (String a (String b r))
| Blank_three (a b c : ascii) (r : string) :
    white3 (nat_of_ascii a) (nat_of_ascii b) (nat_of_ascii c) = true ->
    Blank r -> Blank (String a (String b (String c r))).

(** Further sample worlds: a bot reply scheduled; a fetch that failed. *)
Definition scheduled : World :=
  run (typed "hello") [SubmitForm; InsertDone 2 (InsertResolved None)].

Definition failed : World :=
  run initialWorld [ClickOpen; FetchDone 0 (FetchRejected "offline")].

Definition rowC : Message :=
  mkMessage (Js.Num 1) "edited" "bot" "2024-05-01T12:36:00.000+00:00".

(** ** Keys as React compares them, keys pressed as the browser handles
    them, and a host that writes the time as hour:minute *)

(** [String(n)] for an integer. *)
Definition numberToString (n : Z) : string := NilZero.string_of_int (Z.to_int n).

(** [String(v)] *)
Definition toString (v : Js.value) : string :=
  match v with
  | Js.Undefined => "undefined"
  | Js.Null => "null"
  | Js.Num n => numberToString n
  | Js.Str s => s
  end.

(** React compares the keys of siblings as strings. *)
Definition reactKey (k : Key) : string :=
  match k with
  | KeyId v => toString v
  | KeyText s => s
  end.

Definition is_number (v : Js.value) : bool :=
  match v with Js.Num _ => true | _ => false end.

Definition is_text (v : Js.value) : bool :=
  match v with Js.Str _ => true | _ => false end.





(** The row persisted for the draft "hello", as the store returns it. *)
Definition rowHello : Message :=
  mkMessage (Js.Num 3) "hello" "user" "1970-01-01T00:00:00.000+00:00".
(** * Properties *)

(** ** Strict equality *)

Lemma strict_eq_spec (a b : Js.value) : reflect (a = b) (Js.strict_eq a b).
Proof.
  destruct a as [| |x|x], b as [| |y|y]; simpl; try (constructor; congruence).
  - destruct (Z.eqb_spec x y); constructor; congruence.
  - destruct (String.eqb_spec x y); constructor; congruence.
Qed.

Lemma strict_eq_refl (a : Js.value) : Js.strict_eq a a = true.
Proof. destruct (strict_eq_spec a a); congruence. Qed.

(** ** The subscription callback *)

Lemma findById_found (l : list Message) (i : Js.value) :
  In i (map id l) -> exists e, findById l i = Some e.
Proof.
  induction l as [|x l IH]; simpl; [tauto|].
  intros [Hx | Hin].
  - unfold findById; simpl. rewrite Hx, strict_eq_refl. eauto.
  - unfold findById; simpl.
    destruct (Js.strict_eq (id x) i); [eauto | apply IH, Hin].
Qed.

Lemma findById_missing (l : list Message) (i : Js.value) :
  ~ In i (map id l) -> findById l i = None.
Proof.
  induction l as [|x l IH]; simpl; intros Hn; [reflexivity|].
  unfold findById; simpl.
  destruct (strict_eq_spec (id x) i) as [E|_]; [tauto|].
  apply IH. tauto.
Qed.

Lemma onRemoteInsert_present (l : list Message) (m : Message) :
  In (id m) (map id l) -> onRemoteInsert l m = l.
Proof.
  intros H. unfold onRemoteInsert.
  destruct (findById_found l (id m) H) as [e ->]. reflexivity.
Qed.

Lemma onRemoteInsert_absent (l : list Message) (m : Message) :
  ~ In (id m) (map id l) -> onRemoteInsert l m = (l ++ [m])%list.
Proof.
  intros H. unfold onRemoteInsert. now rewrite (findById_missing l (id m) H).
Qed.

Lemma In_id_dec (l : list Message) (m : Message) :
  In (id m) (map id l) \/ ~ In (id m) (map id l).
Proof.
  destruct (in_dec (fun a b => reflect_dec _ _ (strict_eq_spec a b)) (id m) (map id l));
    tauto.
Qed.

Lemma NoDup_snoc (A : Type) (l : list A) (x : A) :
  NoDup l -> ~ In x l -> NoDup (l ++ [x])%list.
Proof.
  induction l as [|a l IH]; simpl; intros Hl Hx.
  - constructor; [tauto | constructor].
  - inversion Hl as [|? ? Ha Hl']; subst.
    constructor.
    + rewrite in_app_iff; simpl. intuition congruence.
    + apply IH; tauto.
Qed.

Lemma onRemoteInsert_NoDup (l : list Message) (m : Message) :
  NoDup (map id l) -> NoDup (map id (onRemoteInsert l m)).
Proof.
  intros Hl. destruct (In_id_dec l m) as [Hin | Hout].
  - now rewrite onRemoteInsert_present.
  - rewrite onRemoteInsert_absent by assumption.
    rewrite map_app; simpl. now apply NoDup_snoc.
Qed.

Lemma deliver_NoDup (events : list Message) :
  forall prev, NoDup (map id prev) -> NoDup (map id (deliver prev events)).
Proof.
  induction events as [|m events IH]; intros prev Hp; simpl; [assumption|].
  apply IH, onRemoteInsert_NoDup, Hp.
Qed.

Lemma run_RemoteInsert `{Platform} (channel : nat) (events : list Message) :
  forall w, mem channel (channels w) = true ->
    messages (ui (run w (map (RemoteInsert channel) events)))
    = deliver (messages (ui w)) events.
Proof.
  induction events as [|m events IH]; intros w Hc; simpl; [reflexivity|].
  rewrite Hc. rewrite IH by exact Hc. reflexivity.
Qed.

(** C1: for every sequence of insert events delivered to the subscription
    callback, duplicates included, the message list holds each id at most
    once (given it did so before the first delivery, as the empty list
    does): an event whose id is already in the list leaves the list as it
    is, one whose id is not yet there makes it exactly one longer, and a
    second delivery of the same row changes nothing.  On a subscribed
    channel the widget's messages after the events are this list. *)
Theorem remote_inserts_keep_ids_unique `{Platform} :
  forall (prev events : list Message),
    NoDup (map id prev) ->
    NoDup (map id (deliver prev events))
    /\ NoDup (map id (deliver [] events))
    /\ (forall l m, In (id m) (map id l) -> onRemoteInsert l m = l)
    /\ (forall l m, ~ In (id m) (map id l) ->
          onRemoteInsert l m = (l ++ [m])%list
          /\ List.length (onRemoteInsert l m) = S (List.length l))
    /\ (forall l m, onRemoteInsert (onRemoteInsert l m) m = onRemoteInsert l m)
    /\ (forall w channel, mem channel (channels w) = true ->
          messages (ui w) = prev ->
          messages (ui (run w (map (RemoteInsert channel) events)))
          = deliver prev events).
Proof.
  intros prev events Hprev. repeat split.
  - now apply deliver_NoDup.
  - apply deliver_NoDup. constructor.
  - apply onRemoteInsert_present.
  - now apply onRemoteInsert_absent.
  - rewrite onRemoteInsert_absent by assumption.
    rewrite length_app; simpl. lia.
  - intros l m. destruct (In_id_dec l m) as [Hin | Hout].
    + rewrite (onRemoteInsert_present l m Hin).
      now apply onRemoteInsert_present.
    + rewrite (onRemoteInsert_absent l m Hout).
      apply onRemoteInsert_present.
      rewrite map_app, in_app_iff; simpl. tauto.
  - intros w channel Hc <-. now apply run_RemoteInsert.
Qed.

Lemma remote_inserts_keep_ids_unique_witness :
  NoDup (map id (@nil Message))
  /\ NoDup (map id (deliver [] [rowA; rowA; rowB]))
  /\ deliver [] [rowA; rowA; rowB] = [rowA; rowB].
Proof.
  split; [constructor|]. split; [|reflexivity].
  apply (@remote_inserts_keep_ids_unique utcHost [] [rowA; rowA; rowB]).
  constructor.
Defined.

(** C6, as stated, fails: a row without id is appended although an entry
    with the same sender, text and timestamp is in the list. *)
Lemma fallback_key_does_not_dedup :
  let entry := mkMessage (Js.Num 7) "hi" "user" "2024-05-01T12:34:56.789+00:00" in
  let incoming := mkMessage Js.Undefined "hi" "user" "2024-05-01T12:34:56.789+00:00" in
  id incoming = Js.Undefined
  /\ sender entry = sender incoming
  /\ text entry = text incoming
  /\ timestamp entry = timestamp incoming
  /\ onRemoteInsert [entry] incoming = [entry; incoming].
Proof. repeat split. Qed.

Lemma snoc_neq (A : Type) (l : list A) (x : A) : (l ++ [x])%list <> l.
Proof.
  intros E. apply (f_equal (@List.length A)) in E.
  rewrite length_app in E; simpl in E. lia.
Qed.

(** C6, amended: the callback appends the row unless an entry whose id is
    strictly equal to the row's id is in the list; rows that agree on id
    are treated alike whatever their sender, text and timestamp.  The
    sender-text-timestamp combination is the React key of an entry whose
    id is falsy, and nothing more. *)
Theorem onRemoteInsert_dedups_by_id_only `{Platform} :
  forall (l : list Message) (m : Message),
    (onRemoteInsert l m = l <-> In (id m) (map id l))
    /\ (onRemoteInsert l m = (l ++ [m])%list <-> ~ In (id m) (map id l))
    /\ (forall m', id m' = id m ->
          (onRemoteInsert l m' = l <-> onRemoteInsert l m = l))
    /\ renderKey m = (if Js.truthy (id m) then KeyId (id m)
                      else KeyText (sender m ++ "-" ++ text m ++ "-" ++ timestamp m)).
Proof.
  intros l m.
  assert (P : forall x, onRemoteInsert l x = l <-> In (id x) (map id l)).
  { intros x. split.
    - intros E. destruct (In_id_dec l x) as [Hin | Hout]; [assumption|].
      rewrite (onRemoteInsert_absent l x Hout) in E. now apply snoc_neq in E.
    - apply onRemoteInsert_present. }
  split; [apply P|]. split; [|split].
  - split.
    + intros E Hin. rewrite (onRemoteInsert_present l m Hin) in E.
      symmetry in E. now apply snoc_neq in E.
    + apply onRemoteInsert_absent.
  - intros m' E. rewrite !P, E. tauto.
  - reflexivity.
Qed.

Lemma onRemoteInsert_dedups_by_id_only_witness :
  id rowB = id (mkMessage (Js.Num 2) "other" "bot" "")
  /\ (onRemoteInsert [rowA; rowB] rowB = [rowA; rowB]
      <-> onRemoteInsert [rowA; rowB] (mkMessage (Js.Num 2) "other" "bot" "")
          = [rowA; rowB]).
Proof.
  split; [reflexivity|].
  apply (proj1 (proj2 (proj2
    (@onRemoteInsert_dedups_by_id_only utcHost [rowA; rowB]
       (mkMessage (Js.Num 2) "other" "bot" ""))))).
  reflexivity.
Defined.

(** ** Proof steps shared by the case analyses on events *)

Ltac open_world w :=
  destruct w as [n [ms iv op ld er] cl fr cs ch fs ins tms con].

Ltac handlers :=
  unfold step, toggleChat, openEffect, subscribe, removeChannel, fetchMessages,
    fetchMessagesSettled, handleKeyPress, handleInputChange, handleSendMessage,
    saveMessageToSupabase, saveMessageSettled, resume, inputDisabled,
    sendDisabled, errorSet.

Ltac cases :=
  repeat (simpl;
    match goal with
    | |- context [match ?x with _ => _ end] => destruct x eqn:?
    end); simpl.

Ltac more :=
  rewrite <- ?app_assoc;
  first [ exists []; rewrite app_nil_r; reflexivity | eexists; reflexivity ].

(** ** Timers firing *)

Section Facts.

Context {platform : Platform}.

Lemma botReply_frame (tm : Timer) (w : World) :
  ui (botReply tm w) = ui w
  /\ cleanup (botReply tm w) = cleanup w
  /\ channels (botReply tm w) = channels w
  /\ fetches (botReply tm w) = fetches w
  /\ timers (botReply tm w) = timers w
  /\ console (botReply tm w) = console w.
Proof. repeat split. Qed.

Lemma botReply_effect (tm : Timer) (w : World) :
  now (botReply tm w) = Z.max (now w) (timer_due tm)
  /\ fresh (botReply tm w) = S (fresh w)
  /\ calls (botReply tm w)
     = (calls w ++ [persistCall (Z.max (now w) (timer_due tm))
                                (botText (timer_input tm)) "bot"])%list
  /\ inserts (botReply tm w) = (inserts w ++ [(fresh w, AfterBotSave)])%list.
Proof. repeat split. Qed.

Lemma fire_frame (l : list Timer) :
  forall w,
    ui (fire l w) = ui w
    /\ cleanup (fire l w) = cleanup w
    /\ channels (fire l w) = channels w
    /\ fetches (fire l w) = fetches w
    /\ timers (fire l w) = timers w
    /\ console (fire l w) = console w.
Proof.
  induction l as [|tm l IH]; intros w; simpl; [repeat split|].
  destruct (IH (botReply tm w)) as (a & b & c & d & e & f).
  rewrite a, b, c, d, e, f. apply botReply_frame.
Qed.

Lemma fire_grows (l : list Timer) :
  forall w,
    now w <= now (fire l w)
    /\ (fresh w <= fresh (fire l w))%nat
    /\ (exists more, calls (fire l w) = (calls w ++ more)%list)
    /\ (exists more, inserts (fire l w) = (inserts w ++ more)%list
                     /\ Forall (fun p => (fresh w <= fst p < fresh (fire l w))%nat) more).
Proof.
  induction l as [|tm l IH]; intros w; simpl.
  - repeat split; try lia; exists []; rewrite ?app_nil_r; auto.
  - destruct (IH (botReply tm w)) as (Hn & Hf & [cs Hc] & [ins [Hi Hb]]).
    destruct (botReply_effect tm w) as (En & Ef & Ec & Ei).
    fold (fire l (botReply tm w)).
    rewrite En in Hn. rewrite Ef in Hf, Hb. rewrite Ec in Hc. rewrite Ei in Hi.
    repeat split; try lia.
    + eexists. rewrite Hc, <- app_assoc. reflexivity.
    + eexists. split; [rewrite Hi, <- app_assoc; reflexivity|].
      constructor; [simpl; lia|].
      eapply Forall_impl; [|exact Hb]. simpl; intros; lia.
Qed.

(** Timers that are in due order and not overdue fire exactly on time. *)
Lemma fire_on_time (l : list Timer) :
  forall w,
    StronglySorted due_order l ->
    Forall (fun tm => now w <= timer_due tm) l ->
    calls (fire l w) = (calls w ++ fired l)%list
    /\ Forall (fun tm => timer_due tm <= now (fire l w)) l.
Proof.
  induction l as [|tm l IH]; intros w Hs Hd; simpl.
  - rewrite app_nil_r. split; [reflexivity | constructor].
  - inversion Hs as [|? ? Hs' Hle]; subst.
    inversion Hd as [|? ? Htm Hd']; subst.
    fold (fire l (botReply tm w)).
    assert (En : now (botReply tm w) = timer_due tm).
    { destruct (botReply_effect tm w) as (En & _). rewrite En. lia. }
    destruct (IH (botReply tm w) Hs') as [Hc Hall].
    { rewrite En. exact Hle. }
    split.
    + rewrite Hc. destruct (botReply_effect tm w) as (_ & _ & Ec & _).
      rewrite Ec, <- app_assoc. simpl.
      replace (Z.max (now w) (timer_due tm)) with (timer_due tm) by lia.
      reflexivity.
    + constructor; [|exact Hall].
      destruct (fire_grows l (botReply tm w)) as (Hn & _). lia.
Qed.

(** ** One event at a time *)

Lemma elapse_frame (dt : Z) (w : World) :
  ui (elapse dt w) = ui w
  /\ cleanup (elapse dt w) = cleanup w
  /\ channels (elapse dt w) = channels w
  /\ fetches (elapse dt w) = fetches w
  /\ console (elapse dt w) = console w.
Proof.
  unfold elapse. destruct (dt <? 0); [repeat split|].
  simpl.
  match goal with |- context [fire ?l ?w0] =>
    destruct (fire_frame l w0) as (a & b & c & d & _ & f) end.
  rewrite a, b, c, d, f. repeat split.
Qed.

Lemma step_grows (w : World) (e : Event) :
  now w <= now (step w e)
  /\ (fresh w <= fresh (step w e))%nat
  /\ exists more, calls (step w e) = (calls w ++ more)%list.
Proof.
  destruct e.
  9: { simpl. unfold elapse. destruct (dt <? 0) eqn:E; [repeat split; try lia; more|].
       simpl.
       match goal with |- context [fire ?l ?w0] =>
         destruct (fire_grows l w0) as (a & b & c & _) end.
       simpl in *. apply Z.ltb_ge in E.
       repeat split; try lia; try assumption. }
  all: open_world w; handlers; cases; repeat split; try lia; try more.
Qed.

Lemma lookup_insert_app (r : nat) (k : Continuation) (l l' : list (nat * Continuation)) :
  lookup_insert r l = Some k -> lookup_insert r (l ++ l') = Some k.
Proof.
  unfold lookup_insert. induction l as [|p l IH]; simpl; [discriminate|].
  destruct (Nat.eqb (fst p) r); [trivial | exact IH].
Qed.

Lemma lookup_insert_new (r : nat) (k : Continuation) (l : list (nat * Continuation)) :
  Forall (fun p => (fst p < r)%nat) l ->
  lookup_insert r (l ++ [(r, k)]) = Some k.
Proof.
  unfold lookup_insert. induction 1 as [|p l Hp _ IH]; simpl.
  - now rewrite Nat.eqb_refl.
  - destruct (Nat.eqb_spec (fst p) r); [lia | exact IH].
Qed.

Lemma lookup_insert_remove (r r' : nat) (l : list (nat * Continuation)) :
  r <> r' -> lookup_insert r (remove_insert r' l) = lookup_insert r l.
Proof.
  intros Hr. unfold lookup_insert, remove_insert.
  induction l as [|p l IH]; simpl; [reflexivity|].
  destruct (Nat.eqb_spec (fst p) r'); simpl.
  - destruct (Nat.eqb_spec (fst p) r); [congruence | exact IH].
  - destruct (Nat.eqb (fst p) r); [reflexivity | exact IH].
Qed.

Lemma elapse_inserts (dt : Z) (w : World) :
  exists more, inserts (elapse dt w) = (inserts w ++ more)%list
    /\ Forall (fun p => (fresh w <= fst p < fresh (elapse dt w))%nat) more.
Proof.
  unfold elapse. destruct (dt <? 0).
  - exists []. rewrite app_nil_r. split; [reflexivity | constructor].
  - simpl.
    match goal with |- context [fire ?l ?w0] =>
      destruct (fire_grows l w0) as (_ & _ & _ & more & E & F) end.
    exists more. split; assumption.
Qed.

(** A pending insert stays pending, with the same continuation, until
    its own response arrives. *)
Lemma step_keeps_pending (r : nat) (k : Continuation) (w : World) (e : Event) :
  lookup_insert r (inserts w) = Some k ->
  (forall resp, e <> InsertDone r resp) ->
  lookup_insert r (inserts (step w e)) = Some k.
Proof.
  intros Hk He. destruct e.
  9: { simpl. destruct (elapse_inserts dt w) as (more & -> & _).
       now apply lookup_insert_app. }
  7: { simpl. destruct (lookup_insert request (inserts w)) eqn:E; [|exact Hk].
       assert (r <> request) by (intros ->; now apply (He resp)).
       destruct c, resp as [[?|]|?]; simpl;
         now rewrite lookup_insert_remove. }
  all: open_world w; handlers; cases; simpl in Hk;
    try assumption; now apply lookup_insert_app.
Qed.

Lemma run_keeps_pending (r : nat) (k : Continuation) (es : list Event) :
  forall w,
    lookup_insert r (inserts w) = Some k ->
    (forall resp, ~ In (InsertDone r resp) es) ->
    lookup_insert r (inserts (run w es)) = Some k.
Proof.
  induction es as [|e es IH]; intros w Hk He; simpl; [exact Hk|].
  apply IH.
  - apply step_keeps_pending; [exact Hk|].
    intros resp ->. apply (He resp). now left.
  - intros resp Hin. apply (He resp). now right.
Qed.

Lemma StronglySorted_filter (A : Type) (R : A -> A -> Prop) (f : A -> bool) (l : list A) :
  StronglySorted R l -> StronglySorted R (filter f l).
Proof.
  induction 1 as [|a l Hs IH Ha]; simpl; [constructor|].
  destruct (f a); [|exact IH].
  constructor; [exact IH|].
  rewrite Forall_forall in *. intros x Hx. apply filter_In in Hx. now apply Ha.
Qed.

Lemma StronglySorted_snoc (A : Type) (R : A -> A -> Prop) (l : list A) (x : A) :
  StronglySorted R l -> Forall (fun a => R a x) l -> StronglySorted R (l ++ [x]).
Proof.
  induction 1 as [|a l Hs IH Ha]; simpl; intros Hx.
  - repeat constructor.
  - inversion Hx; subst. constructor; [now apply IH|].
    apply Forall_app. split; [exact Ha | now constructor].
Qed.

Lemma initialWorld_wf : wf initialWorld.
Proof. constructor; simpl; try constructor; congruence. Qed.

Lemma saveMessageToSupabase_wf (m : LocalMessage) (k : Continuation) (w : World) :
  wf w -> wf (saveMessageToSupabase m k w).
Proof.
  intros [Hi Ht Hs Hc Ho He]. constructor; simpl; try assumption.
  apply Forall_app. split.
  - eapply Forall_impl; [|exact Hi]. simpl; intros; lia.
  - constructor; [simpl; lia | constructor].
Qed.

Lemma handleSendMessage_wf (w : World) : wf w -> wf (handleSendMessage w).
Proof.
  intros H. unfold handleSendMessage.
  destruct (String.eqb _ _); [exact H | now apply saveMessageToSupabase_wf].
Qed.

Lemma elapse_wf (dt : Z) (w : World) : wf w -> wf (elapse dt w).
Proof.
  intros [Hi Ht Hs Hc Ho He].
  destruct (elapse_frame dt w) as (Eu & Ecl & Ech & _ & _).
  destruct (elapse_inserts dt w) as (more & Ei & Hm).
  constructor; rewrite ?Eu, ?Ecl, ?Ech; try assumption.
  - rewrite Ei. apply Forall_app. split.
    + eapply Forall_impl; [|exact Hi]. simpl. intros p Hp.
      destruct more as [|q more]; [|inversion Hm; subst; lia].
      rewrite app_nil_r in Ei.
      assert (fresh w <= fresh (elapse dt w))%nat; [|lia].
      change (elapse dt w) with (step w (Elapse dt)). apply step_grows.
    + eapply Forall_impl; [|exact Hm]. simpl; intros; lia.
  - unfold elapse. destruct (dt <? 0) eqn:E; [exact Ht|].
    apply Z.ltb_ge in E. simpl.
    match goal with |- context [fire ?l ?w0] =>
      destruct (fire_frame l w0) as (_ & _ & _ & _ & -> & _) end.
    simpl. rewrite Forall_forall in *. intros tm Hin.
    apply filter_In in Hin. destruct Hin as [Hin Hlate].
    specialize (Ht tm Hin). apply negb_true_iff, Z.leb_gt in Hlate. lia.
  - unfold elapse. destruct (dt <? 0) eqn:E; [exact Hs|]. simpl.
    match goal with |- context [fire ?l ?w0] =>
      destruct (fire_frame l w0) as (_ & _ & _ & _ & -> & _) end.
    simpl. now apply StronglySorted_filter.
Qed.

Lemma step_wf (w : World) (e : Event) : wf w -> wf (step w e).
Proof.
  intros H. destruct e.
  9: { now apply elapse_wf. }
  4: { simpl. destruct (_ && _); [now apply handleSendMessage_wf | exact H]. }
  4: { simpl. unfold handleKeyPress.
       destruct (_ && _); [|exact H].
       destruct (_ && _); [now apply handleSendMessage_wf | exact H]. }
  all: destruct H as [Hi Ht Hs Hc Ho He]; open_world w; handlers; simpl in *.
  all: cases; try discriminate; subst; constructor; simpl; try assumption;
    try reflexivity; try congruence.
  all: try (rewrite Nat.eqb_refl; reflexivity).
  all: try (eapply Forall_impl; [|exact Hi]; simpl; intros; lia).
  all: try (unfold remove_insert; rewrite Forall_forall in *; intros p Hp;
            apply filter_In in Hp; now apply Hi).
  all: try (apply Forall_app; split; [exact Ht | constructor; [simpl; lia | constructor]]).
  all: apply StronglySorted_snoc; [exact Hs|];
    eapply Forall_impl; [|exact Ht]; unfold due_order; simpl; intros; lia.
Qed.

Lemma run_wf (es : list Event) : forall w, wf w -> wf (run w es).
Proof.
  induction es as [|e es IH]; intros w H; simpl; [exact H|].
  now apply IH, step_wf.
Qed.

Lemma reachable_wf (w : World) : reachable w -> wf w.
Proof. intros [es ->]. apply run_wf, initialWorld_wf. Qed.

Lemma run_grows (es : list Event) :
  forall w,
    now w <= now (run w es)
    /\ exists more, calls (run w es) = (calls w ++ more)%list.
Proof.
  induction es as [|e es IH]; intros w; simpl.
  - split; [lia | exists []; now rewrite app_nil_r].
  - destruct (IH (step w e)) as [Hn [m2 Hc]].
    destruct (step_grows w e) as (Hn1 & _ & [m1 Hc1]).
    split; [lia|]. exists (m1 ++ m2)%list. now rewrite Hc, Hc1, app_assoc.
Qed.

(** A pending timer either is still pending after the next event, the
    clock not having reached its due time, or has fired exactly then. *)
Lemma step_timer (w : World) (e : Event) (tm : Timer) :
  wf w -> In tm (timers w) ->
  (now (step w e) < timer_due tm /\ In tm (timers (step w e)))
  \/ (timer_due tm <= now (step w e)
      /\ In (persistCall (timer_due tm) (botText (timer_input tm)) "bot")
            (calls (step w e))).
Proof.
  intros H Hin.
  assert (Hlt : now w < timer_due tm).
  { destruct H as [_ Ht _ _ _ _]. rewrite Forall_forall in Ht. now apply Ht. }
  destruct e.
  9: { simpl. unfold elapse. destruct (dt <? 0) eqn:E; [left; now split|].
       apply Z.ltb_ge in E. simpl.
       destruct (timer_due tm <=? now w + dt) eqn:D.
       - right. apply Z.leb_le in D. split; [exact D|].
         match goal with |- context [fire ?l ?w0] =>
           destruct (fire_on_time l w0) as [Hc _] end.
         + apply StronglySorted_filter, H.
         + simpl. destruct H as [_ Ht _ _ _ _]. rewrite Forall_forall in *.
           intros x Hx. apply filter_In in Hx. specialize (Ht x (proj1 Hx)). lia.
         + rewrite Hc. apply in_or_app. right. unfold fired.
           apply (in_map (fun tm => persistCall (timer_due tm) (botText (timer_input tm)) "bot")).
           apply filter_In. split; [exact Hin | now apply Z.leb_le].
       - left. apply Z.leb_gt in D. split; [exact D|].
         match goal with |- context [fire ?l ?w0] =>
           destruct (fire_frame l w0) as (_ & _ & _ & _ & -> & _) end.
         simpl. apply filter_In. split; [exact Hin|].
         apply negb_true_iff, Z.leb_gt. exact D. }
  all: left; open_world w; handlers; simpl in *; cases; split;
    try assumption; try (apply in_or_app; now left).
Qed.

Lemma run_timer (tm : Timer) (es : list Event) :
  forall w,
    wf w -> In tm (timers w) ->
    (now (run w es) < timer_due tm /\ In tm (timers (run w es)))
    \/ (timer_due tm <= now (run w es)
        /\ In (persistCall (timer_due tm) (botText (timer_input tm)) "bot")
              (calls (run w es))).
Proof.
  induction es as [|e es IH]; intros w H Hin; simpl.
  - left. split; [|exact Hin].
    destruct H as [_ Ht _ _ _ _]. rewrite Forall_forall in Ht. now apply Ht.
  - destruct (step_timer w e tm H Hin) as [[Hn Hin'] | [Hn Hc]].
    + apply IH; [now apply step_wf | exact Hin'].
    + right. destruct (run_grows es (step w e)) as [Hn' [more ->]].
      split; [lia | apply in_or_app; now left].
Qed.

(** ** Sending a message *)

Lemma handleSendMessage_effect (w : World) :
  trim (inputValue (ui w)) <> "" ->
  calls (handleSendMessage w)
  = (calls w ++ [persistCall (now w) (trim (inputValue (ui w))) "user"])%list
  /\ inserts (handleSendMessage w)
     = (inserts w ++ [(fresh w, AfterUserSave (trim (inputValue (ui w))))])%list
  /\ ui (handleSendMessage w) = ui w
  /\ now (handleSendMessage w) = now w
  /\ timers (handleSendMessage w) = timers w
  /\ console (handleSendMessage w) = console w.
Proof.
  intros Hne. unfold handleSendMessage.
  destruct (String.eqb_spec (trim (inputValue (ui w))) ""); [contradiction|].
  repeat split.
Qed.

Lemma handleSendMessage_empty (w : World) :
  trim (inputValue (ui w)) = "" -> handleSendMessage w = w.
Proof. intros E. unfold handleSendMessage. now rewrite E. Qed.

Lemma user_save_settled (r : nat) (s : string) (resp : InsertResponse) (w : World) :
  lookup_insert r (inserts w) = Some (AfterUserSave s) ->
  now (step w (InsertDone r resp)) = now w
  /\ calls (step w (InsertDone r resp)) = calls w
  /\ timers (step w (InsertDone r resp))
     = (timers w ++ [mkTimer (now w + 1000) s])%list
  /\ console (step w (InsertDone r resp)) = (console w ++ saveLog resp)%list
  /\ ui (step w (InsertDone r resp))
     = mkChatState (messages (ui w)) "" (isOpen (ui w)) (loading (ui w)) (error (ui w)).
Proof.
  intros Hk. simpl. rewrite Hk.
  destruct resp as [[e|]|e]; simpl; rewrite ?app_nil_r; repeat split.
Qed.

Lemma elapse_now (dt : Z) (w : World) :
  0 <= dt -> now (elapse dt w) = now w + dt.
Proof.
  intros Hd. unfold elapse. destruct (Z.ltb_spec dt 0); [lia | reflexivity].
Qed.

Lemma sent_is_pending (w : World) :
  wf w -> trim (inputValue (ui w)) <> "" ->
  lookup_insert (fresh w) (inserts (handleSendMessage w))
  = Some (AfterUserSave (trim (inputValue (ui w)))).
Proof.
  intros H Hne. destruct (handleSendMessage_effect w Hne) as (_ & -> & _).
  apply lookup_insert_new, H.
Qed.

(** The course of one submission, under any interleaving of other events. *)
Lemma submission_course :
  forall (w : World) (before after : list Event) (resp : InsertResponse),
    reachable w ->
    trim (inputValue (ui w)) <> "" ->
    (forall resp', ~ In (InsertDone (fresh w) resp') before) ->
    let input := trim (inputValue (ui w)) in
    let pending := run (handleSendMessage w) before in
    let settled := step pending (InsertDone (fresh w) resp) in
    let final := run settled after in
    In (persistCall (now w) input "user") (calls (handleSendMessage w))
    /\ lookup_insert (fresh w) (inserts pending) = Some (AfterUserSave input)
    /\ calls settled = calls pending
    /\ console settled = (console pending ++ saveLog resp)%list
    /\ timers settled = (timers pending ++ [mkTimer (now pending + 1000) input])%list
    /\ (now pending + 1000 <= now final ->
        In (persistCall (now pending + 1000) (botText input) "bot") (calls final))
    /\ (now final < now pending + 1000 ->
        In (mkTimer (now pending + 1000) input) (timers final)).
Proof.
  intros w before after resp Hr Hne Hb input pending settled final.
  assert (Hw : wf w) by now apply reachable_wf.
  assert (Hsent : In (persistCall (now w) input "user") (calls (handleSendMessage w))).
  { destruct (handleSendMessage_effect w Hne) as (-> & _).
    apply in_or_app. right. now left. }
  assert (Hp : lookup_insert (fresh w) (inserts pending) = Some (AfterUserSave input)).
  { apply run_keeps_pending; [now apply sent_is_pending | exact Hb]. }
  destruct (user_save_settled _ _ resp _ Hp) as (En & Ec & Et & Eo & _).
  assert (Hs : wf settled).
  { apply step_wf, run_wf. now apply handleSendMessage_wf. }
  assert (Hin : In (mkTimer (now pending + 1000) input) (timers settled)).
  { unfold settled. rewrite Et. apply in_or_app. right. now left. }
  destruct (run_timer _ after settled Hs Hin) as [[Hn Ht] | [Hn Hc]].
  - repeat split; try assumption; intros Hx;
      [exfalso; simpl in Hn; unfold final in Hx; lia | exact Ht].
  - repeat split; try assumption; intros Hx;
      [exact Hc | exfalso; simpl in Hn; unfold final in Hx; lia].
Qed.

(** C10: for every non-empty trimmed draft of a reachable widget, and
    whatever else happens in between: the insert of the user message stays
    pending until its response arrives; when it does, with success, with
    an error result or with an exception, the outcome is only logged, no
    call is made, and the bot reply is scheduled for 1000 ms later with the
    user's trimmed text; once the clock has reached that time the insert
    of the bot message has been issued, stamped with exactly that time,
    its text the user's trimmed text between double quotes followed by
    the fixed Korean sentence; until then its timer is pending. *)
Theorem bot_reply_follows_settled_user_persist :
  forall (w : World) (before after : list Event) (resp : InsertResponse),
    reachable w ->
    trim (inputValue (ui w)) <> "" ->
    (forall resp', ~ In (InsertDone (fresh w) resp') before) ->
    let input := trim (inputValue (ui w)) in
    let pending := run (handleSendMessage w) before in
    let settled := step pending (InsertDone (fresh w) resp) in
    let final := run settled after in
    In (now w, Insert "messages" [mkInsertRow input "user" (toISOString (now w))])
       (calls (handleSendMessage w))
    /\ lookup_insert (fresh w) (inserts pending) = Some (AfterUserSave input)
    /\ calls settled = calls pending
    /\ console settled
       = (console pending
          ++ match resp with
             | InsertResolved None => []
             | InsertResolved (Some _) => ["Error saving message:"]
             | InsertRejected _ => ["Unexpected error saving message:"]
             end)%list
    /\ timers settled = (timers pending ++ [mkTimer (now pending + 1000) input])%list
    /\ (now pending + 1000 <= now final ->
        In (now pending + 1000,
            Insert "messages"
              [mkInsertRow (String (ascii_of_nat 34) (input ++ String (ascii_of_nat 34) " 라고 입력하셨습니다. 저는 고전적인 봇입니다.")) "bot" (toISOString (now pending + 1000))])
           (calls final))
    /\ (now final < now pending + 1000 ->
        In (mkTimer (now pending + 1000) input) (timers final)).
Proof.
  intros w before after resp Hr Hne Hb.
  exact (submission_course w before after resp Hr Hne Hb).
Qed.

Lemma step_keeps_messages (w : World) (e : Event) :
  from_store e = false -> messages (ui (step w e)) = messages (ui w).
Proof.
  intros He. destruct e; try discriminate.
  7: { simpl. now destruct (elapse_frame dt w) as (-> & _). }
  all: open_world w; handlers; cases; reflexivity.
Qed.

Lemma step_keeps_draft (w : World) (e : Event) :
  writes_draft e = false -> inputValue (ui (step w e)) = inputValue (ui w).
Proof.
  intros He. destruct e; try discriminate.
  7: { simpl. now destruct (elapse_frame dt w) as (-> & _). }
  all: open_world w; handlers; cases; reflexivity.
Qed.

Lemma run_keeps_messages (es : list Event) :
  forall w, forallb (fun e => negb (from_store e)) es = true ->
    messages (ui (run w es)) = messages (ui w).
Proof.
  induction es as [|e es IH]; intros w H; simpl in *; [reflexivity|].
  apply andb_true_iff in H. destruct H as [He Hes].
  rewrite IH by exact Hes. apply step_keeps_messages.
  now apply negb_true_iff.
Qed.

Lemma run_keeps_draft (es : list Event) :
  forall w, forallb (fun e => negb (writes_draft e)) es = true ->
    inputValue (ui (run w es)) = inputValue (ui w).
Proof.
  induction es as [|e es IH]; intros w H; simpl in *; [reflexivity|].
  apply andb_true_iff in H. destruct H as [He Hes].
  rewrite IH by exact Hes. apply step_keeps_draft.
  now apply negb_true_iff.
Qed.

Lemma not_from_store (es : list Event) :
  (forall e, In e es ->
     (forall channel payloadNew, e <> RemoteInsert channel payloadNew)
     /\ (forall r resp, e <> FetchDone r resp)) ->
  forallb (fun e => negb (from_store e)) es = true.
Proof.
  intros H. apply forallb_forall. intros e He. destruct (H e He) as [H1 H2].
  destruct e; try reflexivity; [now destruct (H2 request resp) | now destruct (H1 channel payloadNew)].
Qed.

(** C5, amended: neither [handleSendMessage], nor what follows the
    settling of an insert, nor the timer callback writes the messages:
    after any run of events that contains neither a row pushed on the
    subscription nor the response to a fetch of the history, the message
    list is the one before.  The user and the bot message become visible
    only through rows that arrive from the store, pushed or fetched. *)
Theorem submit_never_touches_messages :
  forall (w : World),
    messages (ui (handleSendMessage w)) = messages (ui w)
    /\ (forall r resp, messages (ui (step w (InsertDone r resp))) = messages (ui w))
    /\ (forall tm, messages (ui (botReply tm w)) = messages (ui w))
    /\ (forall dt, messages (ui (elapse dt w)) = messages (ui w))
    /\ (forall es,
          (forall e, In e es ->
             (forall channel payloadNew, e <> RemoteInsert channel payloadNew)
             /\ (forall r resp, e <> FetchDone r resp)) ->
          messages (ui (run w es)) = messages (ui w)).
Proof.
  intros w. repeat split.
  - unfold handleSendMessage. now destruct (String.eqb _ _).
  - intros r resp. now apply step_keeps_messages.
  - intros dt. now apply (step_keeps_messages w (Elapse dt)).
  - intros es Hes. now apply run_keeps_messages, not_from_store.
Qed.

Lemma errorSet_wf (w : World) :
  wf w -> error (ui w) <> None -> errorSet (ui w) = true.
Proof.
  intros H Hn. unfold errorSet. destruct (error (ui w)) as [s|] eqn:E; [|congruence].
  destruct (String.eqb_spec s ""); [|reflexivity].
  subst. now destruct (wf_error w H).
Qed.

(** C2, amended: [handleSendMessage] does nothing when the trimmed draft
    is empty.  While the history is loading or an error is set it is the
    view that blocks a submission: the input and the send button are
    disabled, so neither a click on the button nor the Enter key reaches
    the handler, and the world (calls made, pending work, every state
    field) stays as it is. *)
Theorem submit_blocked_by_empty_draft_or_disabled_form :
  forall (w : World),
    reachable w ->
    (trim (inputValue (ui w)) = "" -> handleSendMessage w = w)
    /\ (trim (inputValue (ui w)) = "" \/ loading (ui w) = true \/ error (ui w) <> None ->
        step w SubmitForm = w
        /\ forall pressed shiftKey, step w (KeyPress pressed shiftKey) = w)
    /\ (loading (ui w) = true \/ error (ui w) <> None ->
        inputDisabled (ui w) = true /\ sendDisabled (ui w) = true).
Proof.
  intros w Hr. assert (Hw : wf w) by now apply reachable_wf.
  split; [apply handleSendMessage_empty|]. split.
  - intros Hc. simpl. unfold sendDisabled, inputDisabled, handleKeyPress.
    destruct Hc as [He | [Hl | Her]].
    + rewrite He. simpl. rewrite andb_false_r. split; [reflexivity|].
      intros pressed shiftKey. rewrite (handleSendMessage_empty w He).
      now repeat destruct (_ && _).
    + rewrite Hl. rewrite orb_true_r. simpl. rewrite andb_false_r. now split.
    + rewrite (errorSet_wf w Hw Her). rewrite !orb_true_r. simpl.
      rewrite andb_false_r. now split.
  - unfold sendDisabled, inputDisabled. intros [Hl | Her].
    + rewrite Hl. now rewrite !orb_true_r.
    + rewrite (errorSet_wf w Hw Her). now rewrite !orb_true_r.
Qed.

(** C7, amended: a submission with a non-empty trimmed draft leaves the
    draft (the whole state) as it is; the draft is still there while the
    insert of the user message is pending, and it is cleared when that
    insert settles, whatever the outcome. *)
Theorem draft_cleared_when_user_persist_settles :
  forall (w : World) (before : list Event) (resp : InsertResponse),
    reachable w ->
    trim (inputValue (ui w)) <> "" ->
    (forall resp', ~ In (InsertDone (fresh w) resp') before) ->
    ui (handleSendMessage w) = ui w
    /\ (forallb (fun e => negb (writes_draft e)) before = true ->
        inputValue (ui (run (handleSendMessage w) before)) = inputValue (ui w))
    /\ inputValue (ui (step (run (handleSendMessage w) before)
                            (InsertDone (fresh w) resp))) = "".
Proof.
  intros w before resp Hr Hne Hb.
  assert (Hw : wf w) by now apply reachable_wf.
  destruct (handleSendMessage_effect w Hne) as (_ & _ & Eu & _).
  split; [exact Eu|]. split.
  - intros Hq. rewrite run_keeps_draft by exact Hq. now rewrite Eu.
  - assert (Hp : lookup_insert (fresh w) (inserts (run (handleSendMessage w) before))
                 = Some (AfterUserSave (trim (inputValue (ui w))))).
    { apply run_keeps_pending; [now apply sent_is_pending | exact Hb]. }
    destruct (user_save_settled _ _ resp _ Hp) as (_ & _ & _ & _ & ->).
    reflexivity.
Qed.

(** One submission on its own: the insert settles after [latency] ms. *)
Lemma submission_timing :
  forall (w : World) (latency wait : Z) (resp : InsertResponse),
    reachable w ->
    trim (inputValue (ui w)) <> "" ->
    0 <= latency ->
    1000 <= wait ->
    let input := trim (inputValue (ui w)) in
    let settled :=
      step (step (handleSendMessage w) (Elapse latency)) (InsertDone (fresh w) resp) in
    calls (handleSendMessage w) = (calls w ++ [persistCall (now w) input "user"])%list
    /\ now settled = now w + latency
    /\ (forall early, 0 <= early < 1000 ->
          In (mkTimer (now w + latency + 1000) input)
             (timers (step settled (Elapse early))))
    /\ In (persistCall (now w + latency + 1000) (botText input) "bot")
          (calls (step settled (Elapse wait)))
    /\ botText "hello"
       = String (ascii_of_nat 34)
           ("hello" ++ String (ascii_of_nat 34)
                         " 라고 입력하셨습니다. 저는 고전적인 봇입니다.").
Proof.
  intros w latency wait resp Hr Hne Hl Hwait input settled.
  assert (Hw : wf w) by now apply reachable_wf.
  destruct (handleSendMessage_effect w Hne) as (Ec & _ & _ & En & _).
  set (pending := step (handleSendMessage w) (Elapse latency)) in *.
  assert (Enp : now pending = now w + latency).
  { unfold pending. simpl. rewrite elapse_now by exact Hl. now rewrite En. }
  assert (Hp : lookup_insert (fresh w) (inserts pending) = Some (AfterUserSave input)).
  { apply step_keeps_pending; [now apply sent_is_pending | discriminate]. }
  destruct (user_save_settled _ _ resp _ Hp) as (Ens & _ & Et & _).
  fold settled in Ens, Et.
  assert (Hs : wf settled) by (apply step_wf, step_wf; now apply handleSendMessage_wf).
  assert (Hin : In (mkTimer (now w + latency + 1000) input) (timers settled)).
  { rewrite Et, Enp. apply in_or_app. right. now left. }
  split; [exact Ec|]. split; [now rewrite Ens|]. split; [|split; [|reflexivity]].
  - intros early He.
    destruct (step_timer settled (Elapse early) _ Hs Hin) as [[_ H] | [H _]];
      [exact H|].
    simpl in H. rewrite elapse_now in H by lia. lia.
  - destruct (step_timer settled (Elapse wait) _ Hs Hin) as [[H _] | [_ H]];
      [|exact H].
    simpl in H. rewrite elapse_now in H by lia. lia.
Qed.

(** C3, amended: for every non-empty trimmed draft, submitting issues an
    insert of text = the trimmed draft, sender = user; when that insert
    settles [latency] ms later, whatever the outcome, the reply is
    scheduled, and the insert of sender = bot, whose text is the trimmed
    draft between double quotes followed by the fixed Korean sentence, is
    issued exactly 1000 ms after the settling, that is [latency + 1000] ms
    after the first call, not earlier. *)
Theorem bot_reply_1000ms_after_user_persist_settles :
  forall (w : World) (latency wait : Z) (resp : InsertResponse),
    reachable w ->
    trim (inputValue (ui w)) <> "" ->
    0 <= latency ->
    1000 <= wait ->
    let input := trim (inputValue (ui w)) in
    let settled :=
      step (step (handleSendMessage w) (Elapse latency)) (InsertDone (fresh w) resp) in
    calls (handleSendMessage w)
    = (calls w
       ++ [(now w, Insert "messages" [mkInsertRow input "user" (toISOString (now w))])])%list
    /\ now settled = now w + latency
    /\ (forall early, 0 <= early < 1000 ->
          In (mkTimer (now w + latency + 1000) input)
             (timers (step settled (Elapse early))))
    /\ In (now w + latency + 1000,
           Insert "messages"
             [mkInsertRow (String (ascii_of_nat 34) (input ++ String (ascii_of_nat 34) " 라고 입력하셨습니다. 저는 고전적인 봇입니다.")) "bot" (toISOString (now w + latency + 1000))])
          (calls (step settled (Elapse wait)))
    /\ botText "hello"
       = String (ascii_of_nat 34)
           ("hello" ++ String (ascii_of_nat 34)
                         " 라고 입력하셨습니다. 저는 고전적인 봇입니다.").
Proof.
  intros w latency wait resp Hr Hne Hl Hwait.
  exact (submission_timing w latency wait resp Hr Hne Hl Hwait).
Qed.

(** ** Fetching the history, opening and closing *)

Lemma fire_selects (l : list Timer) :
  forall w, selects (fire l w) = selects w /\ subscriptions (fire l w) = subscriptions w.
Proof.
  induction l as [|tm l IH]; intros w; simpl; [now split|].
  fold (fire l (botReply tm w)). destruct (IH (botReply tm w)) as [-> ->].
  unfold selects, subscriptions.
  destruct (botReply_effect tm w) as (_ & _ & -> & _).
  rewrite !filter_app. simpl. now rewrite !app_nil_r.
Qed.

(** Only a click on the open button makes the widget query the store or
    subscribe. *)
Lemma step_selects (w : World) (e : Event) :
  e <> ClickOpen ->
  selects (step w e) = selects w /\ subscriptions (step w e) = subscriptions w.
Proof.
  intros He. destruct e; try congruence.
  8: { simpl. unfold elapse. destruct (dt <? 0); [now split|].
       unfold selects, subscriptions. simpl.
       match goal with |- context [fire ?l ?w0] =>
         destruct (fire_selects l w0) as [E1 E2] end.
       unfold selects, subscriptions in E1, E2. now rewrite E1, E2. }
  all: open_world w; handlers; unfold selects, subscriptions; cases;
    rewrite ?filter_app; simpl; rewrite ?app_nil_r; now split.
Qed.

(** C4: [fetchMessages] starts by setting loading and clearing the error,
    and asks for all rows of the table in ascending timestamp order.  When
    the response arrives loading is cleared; on success the messages are
    replaced by the rows received (none when the data is null); on an
    error result or an exception the error is set to a message for
    the user and the messages are emptied.  Settling makes no call, sets
    no timer and leaves no request pending: nothing but a click on the
    open button queries the store again. *)
Theorem fetchMessages_outcomes :
  forall (w : World),
    (loading (ui (fetchMessages w)) = true
     /\ error (ui (fetchMessages w)) = None
     /\ messages (ui (fetchMessages w)) = messages (ui w)
     /\ calls (fetchMessages w) = (calls w ++ [(now w, selectAll)])%list
     /\ fetches (fetchMessages w) = (fetches w ++ [fresh w])%list)
    /\ (forall r resp,
          mem r (fetches w) = true ->
          loading (ui (step w (FetchDone r resp))) = false
          /\ calls (step w (FetchDone r resp)) = calls w
          /\ timers (step w (FetchDone r resp)) = timers w
          /\ inserts (step w (FetchDone r resp)) = inserts w
          /\ fetches (step w (FetchDone r resp)) = remove_nat r (fetches w)
          /\ match resp with
             | FetchResolved data None =>
                 messages (ui (step w (FetchDone r resp)))
                 = match data with Some rows => rows | None => [] end
                 /\ error (ui (step w (FetchDone r resp))) = error (ui w)
             | FetchResolved _ (Some _) =>
                 messages (ui (step w (FetchDone r resp))) = []
                 /\ error (ui (step w (FetchDone r resp))) = Some fetchFailed
             | FetchRejected _ =>
                 messages (ui (step w (FetchDone r resp))) = []
                 /\ error (ui (step w (FetchDone r resp))) = Some fetchCrashed
             end)
    /\ (forall e, e <> ClickOpen -> selects (step w e) = selects w).
Proof.
  intros w. split; [repeat split|]. split.
  - intros r resp Hr. simpl. rewrite Hr.
    destruct resp as [data [fetchError|]|err]; repeat split.
  - intros e He. now apply step_selects.
Qed.

Lemma step_keeps_channel (w : World) (e : Event) :
  is_toggle e = false ->
  channels (step w e) = channels w
  /\ cleanup (step w e) = cleanup w
  /\ isOpen (ui (step w e)) = isOpen (ui w).
Proof.
  intros He. destruct e; try discriminate.
  7: { simpl. destruct (elapse_frame dt w) as (-> & -> & -> & _). now repeat split. }
  all: open_world w; handlers; cases; now repeat split.
Qed.

Lemma run_keeps_channel (es : list Event) :
  forall w, forallb (fun e => negb (is_toggle e)) es = true ->
    channels (run w es) = channels w
    /\ isOpen (ui (run w es)) = isOpen (ui w)
    /\ selects (run w es) = selects w.
Proof.
  induction es as [|e es IH]; intros w H; simpl in *; [now repeat split|].
  apply andb_true_iff in H. destruct H as [He Hes]. apply negb_true_iff in He.
  destruct (IH (step w e) Hes) as (-> & -> & ->).
  destruct (step_keeps_channel w e He) as (-> & _ & ->).
  repeat split. apply step_selects. intros ->. discriminate.
Qed.

Lemma open_effect (w : World) :
  wf w -> isOpen (ui w) = false ->
  isOpen (ui (step w ClickOpen)) = true
  /\ now (step w ClickOpen) = now w
  /\ calls (step w ClickOpen)
     = (calls w ++ [(now w, selectAll); (now w, subscribeTo (S (fresh w)))])%list
  /\ channels (step w ClickOpen) = [S (fresh w)].
Proof.
  intros [_ _ _ Hc Ho _] Hclosed.
  open_world w. simpl in *. subst op. destruct cl; [discriminate|]. subst ch.
  handlers. simpl. rewrite <- app_assoc. now repeat split.
Qed.

Lemma close_effect (w : World) :
  wf w -> isOpen (ui w) = true ->
  exists channel,
    channels w = [channel]
    /\ isOpen (ui (step w ClickClose)) = false
    /\ calls (step w ClickClose) = (calls w ++ [(now w, RemoveChannel channel)])%list
    /\ channels (step w ClickClose) = [].
Proof.
  intros [_ _ _ Hc Ho _] Hopen.
  open_world w. simpl in *. subst op. destruct cl as [c|]; [|discriminate]. subst ch.
  exists c. handlers. simpl. rewrite Nat.eqb_refl. now repeat split.
Qed.

(** C9: a click on the open button while the widget is open does nothing
    at all, so opening twice is opening once.  Opening a closed widget
    issues exactly one select and one subscribe, and the new channel is
    the only active one; whatever happens until the close button is
    clicked, that channel stays the active one and no further select is
    issued; the close removes exactly that channel, leaves none active and
    issues no select. *)
Theorem open_is_idempotent :
  forall (w : World) (es : list Event),
    reachable w ->
    forallb (fun e => negb (is_toggle e)) es = true ->
    step (step w ClickOpen) ClickOpen = step w ClickOpen
    /\ (isOpen (ui w) = true -> step w ClickOpen = w)
    /\ List.length (channels w) = (if isOpen (ui w) then 1 else 0)%nat
    /\ (isOpen (ui w) = false ->
        let opened := step w ClickOpen in
        let later := run opened es in
        let closed := step later ClickClose in
        isOpen (ui opened) = true
        /\ calls opened
           = (calls w ++ [(now w, selectAll); (now w, subscribeTo (S (fresh w)))])%list
        /\ channels opened = [S (fresh w)]
        /\ channels later = [S (fresh w)]
        /\ selects later = (selects w ++ [(now w, selectAll)])%list
        /\ calls closed = (calls later ++ [(now later, RemoveChannel (S (fresh w)))])%list
        /\ channels closed = []
        /\ selects closed = selects later).
Proof.
  intros w es Hr Hes. assert (Hw : wf w) by now apply reachable_wf.
  split; [|split; [|split]].
  - destruct (isOpen (ui w)) eqn:E; simpl; rewrite E.
    + now rewrite E.
    + destruct (open_effect w Hw E) as (Eo & _). simpl in Eo. rewrite E in Eo.
      now rewrite Eo.
  - intros E. simpl. now rewrite E.
  - destruct Hw as [_ _ _ Hc Ho _]. rewrite Hc, Ho. now destruct (cleanup w).
  - intros E. cbv zeta.
    destruct (open_effect w Hw E) as (Eo & En & Ec & Eh).
    destruct (run_keeps_channel es (step w ClickOpen) Hes) as (Lh & Lo & Ls).
    set (later := run (step w ClickOpen) es) in *.
    assert (Hl : wf later) by (apply run_wf, step_wf, Hw).
    assert (Ho : isOpen (ui later) = true) by now rewrite Lo.
    destruct (close_effect later Hl Ho) as (c & Hc & _ & Hcalls & Hnone).
    assert (c = S (fresh w)) by congruence. subst c.
    assert (Hsel : selects (step w ClickOpen) = (selects w ++ [(now w, selectAll)])%list).
    { unfold selects. rewrite Ec, filter_app. reflexivity. }
    repeat split; try assumption; try congruence.
    unfold selects. rewrite Hcalls, filter_app. simpl. now rewrite app_nil_r.
Qed.

(** ** Rendering *)

Lemma renderMessages_cases (st : ChatState) (current : Z) :
  renderMessages st current
  = if loading st then One loadingPlaceholder
    else if errorSet st
         then One (errorPlaceholder (match error st with Some e => e | None => "" end))
         else match messages st with
              | [] => One (greeting current)
              | _ :: _ => Mapped (map renderEntry (messages st))
              end.
Proof.
  unfold renderMessages, errorSet.
  destruct (loading st); [reflexivity|].
  destruct (error st) as [e|]; [destruct (String.eqb e "")|];
    simpl; now destruct (messages st).
Qed.



(** ** Further properties of the handlers *)




(** X2: the draft stays in the input until the insert settles, so a second
    submission before that persists the same text again: two identical
    insert calls, two pending inserts, the state unchanged. *)
Theorem resubmit_before_settle_persists_twice :
  forall (w : World),
    isOpen (ui w) = true ->
    sendDisabled (ui w) = false ->
    let input := trim (inputValue (ui w)) in
    let twice := step (step w SubmitForm) SubmitForm in
    calls twice
    = (calls w ++ [persistCall (now w) input "user"; persistCall (now w) input "user"])%list
    /\ inserts twice
       = (inserts w ++ [(fresh w, AfterUserSave input);
                        (S (fresh w), AfterUserSave input)])%list
    /\ ui twice = ui w.
Proof.
  intros w Ho Hs input twice.
  assert (Hne : trim (inputValue (ui w)) <> "").
  { unfold sendDisabled in Hs. apply orb_false_iff in Hs. destruct Hs as [Hs _].
    apply orb_false_iff in Hs. destruct Hs as [Hs _].
    now destruct (String.eqb_spec (trim (inputValue (ui w))) ""). }
  assert (E1 : step w SubmitForm = handleSendMessage w).
  { simpl. now rewrite Ho, Hs. }
  destruct (handleSendMessage_effect w Hne) as (Ec & Ei & Eu & En & _).
  assert (E2 : step (handleSendMessage w) SubmitForm
               = handleSendMessage (handleSendMessage w)).
  { simpl. now rewrite Eu, Ho, Hs. }
  unfold twice. rewrite E1, E2.
  assert (Hne' : trim (inputValue (ui (handleSendMessage w))) <> "") by now rewrite Eu.
  destruct (handleSendMessage_effect _ Hne') as (Ec' & Ei' & Eu' & _).
  rewrite Ec', Ei', Eu', Ec, Ei, Eu, En, <- !app_assoc. simpl.
  repeat split. unfold handleSendMessage.
  destruct (String.eqb_spec (trim (inputValue (ui w))) ""); [contradiction|].
  reflexivity.
Qed.

Lemma close_frame (w : World) :
  timers (step w ClickClose) = timers w
  /\ inserts (step w ClickClose) = inserts w
  /\ fetches (step w ClickClose) = fetches w
  /\ now (step w ClickClose) = now w
  /\ messages (ui (step w ClickClose)) = messages (ui w)
  /\ inputValue (ui (step w ClickClose)) = inputValue (ui w)
  /\ loading (ui (step w ClickClose)) = loading (ui w)
  /\ error (ui (step w ClickClose)) = error (ui w).
Proof. open_world w; handlers; cases; now repeat split. Qed.

(** X3: closing the widget cancels nothing that is under way: the pending
    timers, inserts and fetches and the state other than [isOpen] are as
    before; a bot reply that was scheduled is still persisted, on time,
    whatever happens after the close; and the response to a fetch that
    was in flight still replaces the messages of the closed widget. *)
Theorem close_cancels_nothing :
  forall (w : World),
    reachable w ->
    (timers (step w ClickClose) = timers w
     /\ inserts (step w ClickClose) = inserts w
     /\ fetches (step w ClickClose) = fetches w
     /\ messages (ui (step w ClickClose)) = messages (ui w)
     /\ inputValue (ui (step w ClickClose)) = inputValue (ui w)
     /\ loading (ui (step w ClickClose)) = loading (ui w)
     /\ error (ui (step w ClickClose)) = error (ui w))
    /\ (forall tm es,
          In tm (timers w) ->
          timer_due tm <= now (run (step w ClickClose) es) ->
          In (timer_due tm,
              Insert "messages"
                [mkInsertRow
                   (String (ascii_of_nat 34)
                      (timer_input tm
                       ++ String (ascii_of_nat 34)
                            " 라고 입력하셨습니다. 저는 고전적인 봇입니다."))
                   "bot" (toISOString (timer_due tm))])
             (calls (run (step w ClickClose) es)))
    /\ (forall r rows,
          mem r (fetches w) = true ->
          messages (ui (step (step w ClickClose)
                             (FetchDone r (FetchResolved (Some rows) None)))) = rows
          /\ loading (ui (step (step w ClickClose)
                               (FetchDone r (FetchResolved (Some rows) None)))) = false
          /\ isOpen (ui (step (step w ClickClose)
                              (FetchDone r (FetchResolved (Some rows) None)))) = false).
Proof.
  intros w Hr. assert (Hw : wf w) by now apply reachable_wf.
  destruct (close_frame w) as (Et & Ei & Ef & En & Em & Ev & El & Ee).
  split; [now repeat split|]. split.
  - intros tm es Hin Hdue.
    assert (Hin' : In tm (timers (step w ClickClose))) by now rewrite Et.
    destruct (run_timer tm es _ (step_wf w ClickClose Hw) Hin') as [[Hn _] | [_ Hc]];
      [lia | exact Hc].
  - intros r rows Hm.
    assert (Hclosed : isOpen (ui (step w ClickClose)) = false).
    { destruct (isOpen (ui w)) eqn:O.
      - now destruct (close_effect w Hw O) as (_ & _ & Hc & _).
      - simpl. now rewrite O. }
    change (step (step w ClickClose) (FetchDone r (FetchResolved (Some rows) None)))
      with (let w' := step w ClickClose in
            if mem r (fetches w')
            then fetchMessagesSettled (FetchResolved (Some rows) None)
                   (set_fetches (remove_nat r (fetches w')) w')
            else w').
    cbv zeta. rewrite Ef, Hm. repeat split. simpl. exact Hclosed.
Qed.

Lemma step_keeps_error (w : World) (e : Event) :
  is_open_click e = false ->
  error (ui w) <> None -> error (ui (step w e)) <> None.
Proof.
  intros He Hn. destruct e; try discriminate.
  8: { simpl. now destruct (elapse_frame dt w) as (-> & _). }
  1: { open_world w; handlers; simpl in *. destruct op, cl; simpl; assumption. }
  all: open_world w; handlers; simpl in *; cases; try assumption; discriminate.
Qed.

(** X4: an error, once set, stays set (and the input and the send button
    stay disabled) through every event but a click that opens the widget,
    which starts a new fetch and clears it; a later successful fetch
    response does not clear it. *)
Theorem error_stays_until_reopened :
  forall (w : World) (es : list Event),
    reachable w ->
    error (ui w) <> None ->
    forallb (fun e => negb (is_open_click e)) es = true ->
    error (ui (run w es)) <> None
    /\ inputDisabled (ui (run w es)) = true
    /\ sendDisabled (ui (run w es)) = true
    /\ (isOpen (ui w) = false -> error (ui (step w ClickOpen)) = None).
Proof.
  intros w es Hr Hn Hes.
  assert (Hkeep : error (ui (run w es)) <> None).
  { revert w Hr Hn Hes. induction es as [|e es IH]; intros w Hr Hn Hes; simpl in *;
      [exact Hn|].
    apply andb_true_iff in Hes. destruct Hes as [He Hes].
    apply IH; [| |exact Hes].
    - destruct Hr as [tr ->]. exists (tr ++ [e])%list.
      unfold run. now rewrite fold_left_app.
    - apply step_keeps_error; [now apply negb_true_iff | exact Hn]. }
  assert (Hwf : wf (run w es)) by (apply run_wf; now apply reachable_wf).
  pose proof (errorSet_wf _ Hwf Hkeep) as Hset.
  repeat split; try assumption.
  - unfold inputDisabled. rewrite Hset. apply orb_true_r.
  - unfold sendDisabled. rewrite Hset. apply orb_true_r.
  - intros Hc. open_world w. simpl in *. subst op. handlers. simpl.
    now destruct cl.
Qed.

(** ** The feed *)

Lemma deliver_app (events more : list Message) :
  forall prev, deliver prev (events ++ more) = deliver (deliver prev events) more.
Proof. intros prev. unfold deliver. apply fold_left_app. Qed.

Lemma deliver_extends (events : list Message) :
  forall prev,
    exists added,
      deliver prev events = (prev ++ added)%list
      /\ incl added events
      /\ Forall (fun m => ~ In (id m) (map id prev)) added.
Proof.
  induction events as [|m events IH]; intros prev; simpl.
  - exists []. rewrite app_nil_r. repeat split; [apply incl_refl | constructor].
  - destruct (In_id_dec prev m) as [Hin | Hout].
    + rewrite (onRemoteInsert_present prev m Hin).
      destruct (IH prev) as (added & E & Hi & Hf).
      exists added. repeat split; try assumption. now apply incl_tl.
    + rewrite (onRemoteInsert_absent prev m Hout).
      destruct (IH (prev ++ [m])%list) as (added & E & Hi & Hf).
      exists (m :: added). rewrite E, <- app_assoc. repeat split.
      * intros x [<- | Hx]; [now left | right; now apply Hi].
      * constructor; [exact Hout|].
        eapply Forall_impl; [|exact Hf]. simpl. intros x Hx Hin. apply Hx.
        rewrite map_app, in_app_iff. now left.
Qed.

Lemma deliver_covers (events : list Message) :
  forall prev m, In m events -> In (id m) (map id (deliver prev events)).
Proof.
  induction events as [|x events IH]; intros prev m; simpl; [tauto|].
  intros [-> | Hin]; [|now apply IH].
  destruct (deliver_extends events (onRemoteInsert prev m)) as (added & -> & _).
  rewrite map_app, in_app_iff. left.
  destruct (In_id_dec prev m) as [Hp | Hp].
  - now rewrite onRemoteInsert_present.
  - rewrite onRemoteInsert_absent by assumption.
    rewrite map_app, in_app_iff. right. now left.
Qed.

(** X5: deliveries only ever append: the list before is a prefix of the
    list after, so an entry is never removed, reordered or replaced (a
    later row with the id of an entry does not update it); every row
    appended is one of the delivered rows, with an id the list did not
    have; and the id of every delivered row is in the list afterwards. *)
Theorem deliveries_append_and_first_wins :
  forall (prev events : list Message),
    (exists added,
        deliver prev events = (prev ++ added)%list
        /\ incl added events
        /\ Forall (fun m => ~ In (id m) (map id prev)) added)
    /\ (forall m, In m events -> In (id m) (map id (deliver prev events)))
    /\ (forall old new,
          In old prev -> id new = id old ->
          deliver prev (new :: events) = deliver prev events)
    /\ (List.length prev <= List.length (deliver prev events)
        <= List.length prev + List.length events)%nat.
Proof.
  intros prev events. split; [apply deliver_extends|].
  split; [apply deliver_covers|]. split.
  - intros old new Hold E. simpl. rewrite onRemoteInsert_present; [reflexivity|].
    rewrite E. now apply in_map.
  - split.
    + destruct (deliver_extends events prev) as (added & -> & _).
      rewrite length_app. lia.
    + revert prev. induction events as [|x events IH]; intros prev; simpl; [lia|].
      specialize (IH (onRemoteInsert prev x)).
      assert (List.length (onRemoteInsert prev x) <= S (List.length prev))%nat; [|lia].
      unfold onRemoteInsert. destruct (findById prev (id x)); [lia|].
      rewrite length_app. simpl. lia.
Qed.

(** ** Keys of the rendered entries *)

Lemma renderKey_truthy (m : Message) :
  Js.truthy (id m) = true -> renderKey m = KeyId (id m).
Proof. intros H. unfold renderKey. now rewrite H. Qed.

Lemma deliver_Forall (P : Message -> Prop) (prev events : list Message) :
  Forall P prev -> Forall P events -> Forall P (deliver prev events).
Proof.
  intros Hp He. destruct (deliver_extends events prev) as (added & -> & Hi & _).
  apply Forall_app. split; [exact Hp|].
  rewrite Forall_forall in *. intros x Hx. apply He, Hi, Hx.
Qed.

Lemma NoDup_map_injective (A B : Type) (f : A -> B) (l : list A) :
  (forall a b, f a = f b -> a = b) -> NoDup l -> NoDup (map f l).
Proof.
  intros Hf. induction 1 as [|x l Hx _ IH]; simpl; constructor; [|exact IH].
  intros Hin. apply in_map_iff in Hin. destruct Hin as (y & E & Hy).
  apply Hf in E. now subst.
Qed.

Lemma numberToString_injective (a b : Z) :
  numberToString a = numberToString b -> a = b.
Proof.
  unfold numberToString. intros E.
  assert (N : forall z, Z.to_int z <> Pos Nil /\ Z.to_int z <> Neg Nil).
  { intros [|p|p]; simpl; split; try discriminate;
      intros H; injection H; apply Unsigned.to_uint_nonnil. }
  apply (f_equal NilZero.int_of_string) in E.
  rewrite !NilZero.isi in E by apply N.
  injection E as E. apply (f_equal Z.of_int) in E.
  now rewrite !DecimalZ.of_to in E.
Qed.

Lemma NoDup_map_injective_on (A B : Type) (f : A -> B) (l : list A) :
  (forall a b, In a l -> In b l -> f a = f b -> a = b) -> NoDup l -> NoDup (map f l).
Proof.
  intros Hf Hn. induction Hn as [|x l Hx _ IH]; simpl; constructor.
  - intros Hin. apply in_map_iff in Hin. destruct Hin as (y & E & Hy).
    apply Hf in E; [subst; contradiction | now right | now left].
  - apply IH. intros a b Ha Hb. apply Hf; now right.
Qed.

(** X6: React compares keys as strings.  When the ids of the rows are
    truthy and all numbers, or truthy and all strings, and those of the
    list before the deliveries are pairwise distinct, the entries rendered
    for the list after any deliveries carry pairwise distinct keys, each
    the id of its row as a string.  Across the two types the keys can
    coincide: the number 1 and the string "1" give one key. *)
Theorem rendered_keys_are_distinct :
  forall (prev events : list Message),
    NoDup (map id prev) ->
    Forall (fun m => Js.truthy (id m) = true) (prev ++ events) ->
    Forall (fun m => is_number (id m) = true) (prev ++ events)
    \/ Forall (fun m => is_text (id m) = true) (prev ++ events) ->
    map (fun e => option_map reactKey (key e)) (map renderEntry (deliver prev events))
    = map (fun m => Some (toString (id m))) (deliver prev events)
    /\ NoDup (map (fun e => option_map reactKey (key e))
                  (map renderEntry (deliver prev events)))
    /\ reactKey (renderKey (mkMessage (Js.Num 1) "" "" ""))
       = reactKey (renderKey (mkMessage (Js.Str "1") "" "" "")).
Proof.
  intros prev events Hn Ht Hk.
  pose proof (deliver_NoDup events prev Hn) as Hnd.
  assert (Hall : forall P : Message -> Prop,
             Forall P (prev ++ events)%list -> Forall P (deliver prev events)).
  { intros P H. apply Forall_app in H. now apply deliver_Forall. }
  apply Hall in Ht.
  assert (Hk' : Forall (fun m => is_number (id m) = true) (deliver prev events)
                \/ Forall (fun m => is_text (id m) = true) (deliver prev events)).
  { destruct Hk as [H | H]; [left | right]; now apply Hall. }
  clear Hk Hall. set (l := deliver prev events) in *. clearbody l.
  assert (E : map (fun e => option_map reactKey (key e)) (map renderEntry l)
              = map (fun m => Some (toString (id m))) l).
  { rewrite map_map. apply map_ext_in. intros m Hm. simpl.
    rewrite Forall_forall in Ht. now rewrite renderKey_truthy by now apply Ht. }
  split; [exact E|]. split; [|reflexivity]. rewrite E.
  rewrite <- (map_map id (fun i => Some (toString i))).
  apply NoDup_map_injective_on; [|exact Hnd].
  intros a b Ha Hb H. injection H as H.
  apply in_map_iff in Ha. destruct Ha as (ma & <- & Ha).
  apply in_map_iff in Hb. destruct Hb as (mb & <- & Hb).
  destruct Hk' as [Hk' | Hk']; rewrite Forall_forall in Hk';
    pose proof (Hk' ma Ha) as Ka; pose proof (Hk' mb Hb) as Kb;
    destruct (id ma), (id mb); try discriminate; simpl in H.
  - f_equal. now apply numberToString_injective.
  - now f_equal.
Qed.

(** ** Subscriptions over a whole run *)

Lemma fire_control (l : list Timer) :
  forall w, subscribed (fire l w) = subscribed w /\ removed (fire l w) = removed w.
Proof.
  induction l as [|tm l IH]; intros w; simpl; [now split|].
  fold (fire l (botReply tm w)). destruct (IH (botReply tm w)) as [-> ->].
  unfold subscribed, removed.
  destruct (botReply_effect tm w) as (_ & _ & -> & _).
  rewrite !flat_map_app. simpl. now rewrite !app_nil_r.
Qed.

Lemma step_control (w : World) (e : Event) :
  is_toggle e = false ->
  subscribed (step w e) = subscribed w /\ removed (step w e) = removed w.
Proof.
  intros He. destruct e; try discriminate.
  7: { simpl. unfold elapse. destruct (dt <? 0); [now split|].
       unfold subscribed, removed. simpl.
       match goal with |- context [fire ?l ?w0] =>
         destruct (fire_control l w0) as [E1 E2] end.
       unfold subscribed, removed in E1, E2. now rewrite E1, E2. }
  all: open_world w; handlers; unfold subscribed, removed; cases;
    rewrite ?flat_map_app; simpl; rewrite ?app_nil_r; now split.
Qed.

Lemma step_balanced (w : World) (e : Event) :
  wf w -> balanced w -> balanced (step w e).
Proof.
  intros Hw [Hb Hl].
  destruct (is_toggle e) eqn:T.
  - destruct e; try discriminate.
    + destruct (isOpen (ui w)) eqn:O; [simpl; rewrite O; now split|].
      destruct (open_effect w Hw O) as (_ & _ & Ec & Eh).
      assert (Hnone : channels w = []).
      { destruct Hw as [_ _ _ Hc Ho _]. rewrite O in Ho.
        destruct (cleanup w); [discriminate | exact Hc]. }
      unfold balanced, subscribed, removed, selects in *.
      rewrite Ec, Eh, !flat_map_app, filter_app, length_app. simpl.
      rewrite Hb, Hnone, !app_nil_r, length_app. simpl.
      rewrite Hnone, app_nil_r in Hb. rewrite Hb in Hl. split; [reflexivity | lia].
    + destruct (isOpen (ui w)) eqn:O; [|simpl; rewrite O; now split].
      destruct (close_effect w Hw O) as (c & Hc & _ & Ec & Eh).
      unfold balanced, subscribed, removed, selects in *.
      rewrite Ec, Eh, !flat_map_app, filter_app. simpl.
      rewrite Hb, Hc, !app_nil_r. split; [reflexivity|].
      rewrite Hl, Hb, Hc. reflexivity.
  - destruct (step_control w e T) as [Es Er].
    destruct (step_keeps_channel w e T) as (Ec & _).
    destruct (step_selects w e) as [Esel _]; [intros ->; discriminate|].
    unfold balanced. now rewrite Es, Er, Ec, Esel.
Qed.

(** X7: at every moment the channels subscribed so far are, in order, the
    channels removed so far followed by the active one (if the widget is
    open) or by none (if it is closed): no channel is left subscribed
    behind, none is removed twice or before it was subscribed.  There have
    been as many history queries as subscriptions. *)
Theorem subscriptions_are_balanced :
  forall (w : World),
    reachable w ->
    subscribed w = (removed w ++ channels w)%list
    /\ List.length (channels w) = (if isOpen (ui w) then 1 else 0)%nat
    /\ List.length (selects w) = List.length (subscribed w).
Proof.
  intros w Hr. assert (Hw : wf w) by now apply reachable_wf.
  assert (Hb : balanced w).
  { destruct Hr as [es ->].
    assert (G : forall es w0, wf w0 -> balanced w0 -> balanced (run w0 es)).
    { clear. induction es as [|e es IH]; intros w0 Hw0 Hb0; simpl; [exact Hb0|].
      apply IH; [now apply step_wf | now apply step_balanced]. }
    apply G; [apply initialWorld_wf | now split]. }
  destruct Hb as [Hb Hl]. split; [exact Hb|]. split; [|exact Hl].
  destruct Hw as [_ _ _ Hc Ho _]. rewrite Hc, Ho. now destruct (cleanup w).
Qed.

(** ** The loading flag *)

Lemma step_loading_backed (w : World) (e : Event) :
  wf w -> loading_backed w -> loading_backed (step w e).
Proof.
  intros Hw [Hl Ho].
  destruct e.
  9: { destruct (elapse_frame dt w) as (Eu & _ & _ & Ef & _).
       destruct (step_selects w (Elapse dt)) as [Es _]; [discriminate|].
       unfold loading_backed. change (step w (Elapse dt)) with (elapse dt w) in *.
       rewrite Eu, Ef, Es. split; assumption. }
  1: { destruct (isOpen (ui w)) eqn:O;
         [simpl; rewrite O; split; [exact Hl | intros _; now apply Ho]|].
       destruct (open_effect w Hw O) as (_ & _ & Ec & _).
       split.
       - intros _. left. open_world w. simpl in *. subst op. handlers. simpl.
         destruct cl; simpl; now destruct fs.
       - intros _. unfold selects. rewrite Ec, filter_app. simpl.
         now destruct (filter is_select (calls w)). }
  1: { destruct (step_selects w ClickClose) as [Es _]; [discriminate|].
       destruct (close_frame w) as (_ & _ & Ef & _ & _ & _ & El & _).
       split; rewrite Es.
       - rewrite El, Ef. exact Hl.
       - destruct (isOpen (ui w)) eqn:O.
         + intros _. now apply Ho.
         + simpl. rewrite O. intros H. rewrite O in H. discriminate. }
  4: { destruct (step_selects w (FetchDone request resp)) as [Es _]; [discriminate|].
       split; rewrite Es.
       - simpl. destruct (mem request (fetches w)) eqn:M; [|exact Hl].
         destruct resp as [data [fetchError|]|err]; simpl; discriminate.
       - destruct (step_keeps_channel w (FetchDone request resp) eq_refl) as (_ & _ & ->).
         exact Ho. }
  all: match goal with |- loading_backed (step _ ?ev) =>
         destruct (step_selects w ev) as [Es _]; [discriminate|];
         destruct (step_keeps_channel w ev eq_refl) as (_ & _ & Eo);
         split; rewrite Es, ?Eo; [|exact Ho]
       end.
  all: open_world w; handlers; simpl in *; cases; exact Hl.
Qed.

(** X8: whenever the open widget shows the loading placeholder, a fetch
    of the history is in flight. *)
Theorem loading_means_fetch_in_flight :
  forall (w : World),
    reachable w ->
    isOpen (ui w) = true ->
    loading (ui w) = true ->
    fetches w <> []
    /\ renderMessages (ui w) (now w) = One loadingPlaceholder.
Proof.
  intros w Hr Ho Hl.
  assert (Hb : loading_backed w).
  { destruct Hr as [es ->].
    assert (G : forall es w0, wf w0 -> loading_backed w0 -> loading_backed (run w0 es)).
    { clear. induction es as [|e es IH]; intros w0 Hw0 Hb0; simpl; [exact Hb0|].
      apply IH; [now apply step_wf | now apply step_loading_backed]. }
    apply G; [apply initialWorld_wf|]. split; [now right | discriminate]. }
  destruct Hb as [Hb1 Hb2]. split.
  - destruct (Hb1 Hl) as [H | H]; [exact H|]. now destruct (Hb2 Ho).
  - unfold renderMessages. now rewrite Hl.
Qed.

(** ** What is sent to the store *)

Lemma lookup_insert_In (r : nat) (k : Continuation) (l : list (nat * Continuation)) :
  lookup_insert r l = Some k -> In (r, k) l.
Proof.
  unfold lookup_insert. induction l as [|[r' k'] l IH]; simpl; [discriminate|].
  destruct (Nat.eqb_spec r' r); simpl.
  - intros E. inversion E. subst. now left.
  - intros E. right. now apply IH.
Qed.

Lemma botReply_sending_ok (tm : Timer) (w : World) :
  sent_text (timer_input tm) ->
  sending_ok w -> sending_ok (botReply tm w).
Proof.
  intros Ht (Hc & Htm & Hi).
  destruct (botReply_effect tm w) as (_ & _ & Ec & Ei).
  destruct (botReply_frame tm w) as (_ & _ & _ & _ & Et & _).
  unfold sending_ok. rewrite Ec, Ei, Et. repeat split; try assumption.
  - apply Forall_app. split; [exact Hc|]. constructor; [|constructor].
    unfold well_formed_call, persistCall. simpl. split; [reflexivity|].
    exists (botText (timer_input tm)), "bot". split; [reflexivity|].
    right. split; [reflexivity|]. now exists (timer_input tm).
  - apply Forall_app. split; [exact Hi|]. now repeat constructor.
Qed.

Lemma fire_sending_ok (l : list Timer) :
  forall w,
    Forall (fun tm => sent_text (timer_input tm)) l ->
    sending_ok w -> sending_ok (fire l w).
Proof.
  induction l as [|tm l IH]; intros w Hl Hw; simpl; [exact Hw|].
  inversion Hl; subst. fold (fire l (botReply tm w)).
  apply IH; [assumption | now apply botReply_sending_ok].
Qed.

Lemma handleSendMessage_sending_ok (w : World) :
  sending_ok w -> sending_ok (handleSendMessage w).
Proof.
  intros (Hc & Htm & Hi).
  destruct (String.eqb_spec (trim (inputValue (ui w))) "") as [E | Hne].
  - now rewrite handleSendMessage_empty.
  - destruct (handleSendMessage_effect w Hne) as (Ec & Ei & _ & _ & Et & _).
    unfold sending_ok. rewrite Ec, Ei, Et. repeat split; try assumption.
    + apply Forall_app. split; [exact Hc|]. constructor; [|constructor].
      unfold well_formed_call, persistCall. simpl. split; [reflexivity|].
      exists (trim (inputValue (ui w))), "user". split; [reflexivity|].
      left. split; [reflexivity|]. split; [exact Hne | now eexists].
    + apply Forall_app. split; [exact Hi|]. constructor; [|constructor].
      simpl. split; [exact Hne | now eexists].
Qed.

Lemma step_sending_ok (w : World) (e : Event) :
  sending_ok w -> sending_ok (step w e).
Proof.
  intros H. destruct e.
  9: { simpl. unfold elapse. destruct (dt <? 0); [exact H|].
       destruct H as (Hc & Htm & Hi).
       match goal with |- sending_ok (set_now ?t (fire ?l ?w0)) =>
         assert (G : sending_ok (fire l w0)) end.
       { apply fire_sending_ok.
         - rewrite Forall_forall in *. intros tm Hin. apply filter_In in Hin.
           now apply Htm.
         - repeat split; simpl; try assumption.
           rewrite Forall_forall in *. intros tm Hin. apply filter_In in Hin.
           now apply Htm. }
       exact G. }
  4: { simpl. destruct (_ && _); [now apply handleSendMessage_sending_ok | exact H]. }
  4: { simpl. unfold handleKeyPress. destruct (_ && _); [|exact H].
       destruct (_ && _); [now apply handleSendMessage_sending_ok | exact H]. }
  5: { simpl. destruct (lookup_insert request (inserts w)) as [k|] eqn:E; [|exact H].
       destruct H as (Hc & Htm & Hi).
       assert (Hk : match k with AfterUserSave s => sent_text s | AfterBotSave => True end).
       { apply lookup_insert_In in E. rewrite Forall_forall in Hi. exact (Hi _ E). }
       assert (Hi' : Forall (fun p => match snd p with
                                      | AfterUserSave s => sent_text s
                                      | AfterBotSave => True
                                      end) (remove_insert request (inserts w))).
       { unfold remove_insert. rewrite Forall_forall in *. intros p Hp.
         apply filter_In in Hp. now apply Hi. }
       destruct k, resp as [[?|]|?]; simpl; repeat split; simpl; try assumption.
       all: apply Forall_app; split; [exact Htm | constructor; [exact Hk | constructor]]. }
  all: destruct H as (Hc & Htm & Hi); open_world w; handlers; simpl in *; cases;
    repeat split; simpl; try assumption.
  all: rewrite <- ?app_assoc; apply Forall_app; split; [exact Hc|];
    repeat constructor.
Qed.

Lemma calls_stay_well_formed (w : World) :
  reachable w ->
  Forall well_formed_call (calls w)
  /\ Forall (fun tm => timer_input tm <> "") (timers w).
Proof.
  intros [es ->].
  assert (G : forall es w0, sending_ok w0 -> sending_ok (run w0 es)).
  { clear. induction es as [|e es IH]; intros w0 H0; simpl; [exact H0|].
    now apply IH, step_sending_ok. }
  destruct (G es initialWorld) as (Hc & Ht & _).
  { repeat split; constructor. }
  split; [exact Hc|]. eapply Forall_impl; [|exact Ht]. now intros tm [Hne _].
Qed.

(** X9: every call the widget ever makes is well formed.  An insert goes
    to the messages table with exactly one row, which has no id and the
    time of the call as its timestamp; its sender is user and its text a
    trimmed, non-empty draft, or its sender is bot and its text such a
    draft between double quotes followed by the fixed Korean sentence.  A
    select asks for all columns of the messages table in ascending
    timestamp order, a subscribe is for INSERT events on that table in the
    public schema, on the channel named chat-messages. *)
Theorem every_call_is_well_formed :
  forall (w : World) (t : Z) (call : RemoteCall),
    reachable w ->
    In (t, call) (calls w) ->
    match call with
    | Select table columns orderColumn ascending =>
        table = "messages" /\ columns = "*" /\ orderColumn = "timestamp"
        /\ ascending = true
    | Insert table rows =>
        table = "messages"
        /\ exists text sender,
             rows = [mkInsertRow text sender (toISOString t)]
             /\ ((sender = "user" /\ text <> "" /\ exists draft, text = trim draft)
                 \/ (sender = "bot"
                     /\ exists draft,
                          trim draft <> ""
                          /\ text = String (ascii_of_nat 34)
                                      (trim draft
                                       ++ String (ascii_of_nat 34)
                                            " 라고 입력하셨습니다. 저는 고전적인 봇입니다.")))
    | Subscribe _ name event schema table =>
        name = "chat-messages" /\ event = "INSERT" /\ schema = "public"
        /\ table = "messages"
    | RemoveChannel _ => True
    end.
Proof.
  intros w t call Hr Hin.
  destruct (calls_stay_well_formed w Hr) as [Hc _].
  rewrite Forall_forall in Hc. specialize (Hc _ Hin).
  unfold well_formed_call in Hc. simpl in Hc.
  destruct call; try exact Hc.
  destruct Hc as (Ht & text & sender & Hrows & Hcase).
  split; [exact Ht|]. exists text, sender. split; [exact Hrows|].
  destruct Hcase as [(Hs & Hne & Hd) | (Hs & s0 & (Hne & d0 & Hd) & Htext)].
  - left. now repeat split.
  - right. split; [exact Hs|]. exists d0. subst s0. now split.
Qed.

(** ** One bot reply per user message *)

Lemma filter_split_length (A : Type) (f : A -> bool) (l : list A) :
  (List.length (filter f l) + List.length (filter (fun x => negb (f x)) l))%nat
  = List.length l.
Proof.
  induction l as [|x l IH]; simpl; [reflexivity|].
  destruct (f x); simpl; lia.
Qed.

Lemma awaited_remove (r : nat) (k : Continuation) (l : list (nat * Continuation)) :
  NoDup (map fst l) ->
  lookup_insert r l = Some k ->
  List.length (awaited_user_saves l)
  = (List.length (awaited_user_saves (remove_insert r l))
     + match k with AfterUserSave _ => 1 | AfterBotSave => 0 end)%nat.
Proof.
  unfold lookup_insert, remove_insert, awaited_user_saves.
  induction l as [|[r' k'] l IH]; simpl; [discriminate|].
  intros Hn. inversion Hn as [|? ? Hout Hn']; subst.
  destruct (Nat.eqb_spec r' r) as [-> | Hne]; simpl.
  - intros E. inversion E; subst.
    assert (Hsame : filter (fun p => negb (Nat.eqb (fst p) r)) l = l).
    { clear - Hout. induction l as [|[a b] l IH]; simpl in *; [reflexivity|].
      destruct (Nat.eqb_spec a r); [subst; tauto|]. simpl. f_equal. apply IH. tauto. }
    rewrite Hsame. destruct k; simpl; lia.
  - intros E. specialize (IH Hn' E). destruct k'; simpl; lia.
Qed.

Lemma botReply_counts (tm : Timer) (w : World) :
  persists_by "user" (calls (botReply tm w)) = persists_by "user" (calls w)
  /\ List.length (persists_by "bot" (calls (botReply tm w)))
     = S (List.length (persists_by "bot" (calls w)))
  /\ awaited_user_saves (inserts (botReply tm w)) = awaited_user_saves (inserts w)
  /\ (keys_ok w -> keys_ok (botReply tm w)).
Proof.
  destruct (botReply_effect tm w) as (_ & Ef & Ec & Ei).
  rewrite Ec, Ei. unfold persists_by, awaited_user_saves, keys_ok.
  rewrite !filter_app, length_app. simpl. rewrite !app_nil_r.
  repeat split; try lia.
  - rewrite map_app. simpl. apply NoDup_snoc; [tauto|].
    destruct H as [_ H]. rewrite Forall_forall in H. intros Hin.
    apply in_map_iff in Hin. destruct Hin as (p & E & Hp). apply H in Hp. lia.
  - rewrite ?Ef. apply Forall_app. destruct H as [_ H]. split.
    + eapply Forall_impl; [|exact H]. simpl; intros; lia.
    + constructor; [simpl; lia | constructor].
Qed.

Lemma fire_counts (l : list Timer) :
  forall w,
    persists_by "user" (calls (fire l w)) = persists_by "user" (calls w)
    /\ List.length (persists_by "bot" (calls (fire l w)))
       = (List.length (persists_by "bot" (calls w)) + List.length l)%nat
    /\ awaited_user_saves (inserts (fire l w)) = awaited_user_saves (inserts w)
    /\ (keys_ok w -> keys_ok (fire l w)).
Proof.
  induction l as [|tm l IH]; intros w; simpl.
  { repeat split; auto; unfold fire; simpl; try lia; apply H. }
  fold (fire l (botReply tm w)).
  destruct (IH (botReply tm w)) as (-> & -> & -> & Hk).
  destruct (botReply_counts tm w) as (-> & -> & -> & Hk').
  split; [reflexivity|]. split; [simpl; lia|]. split; [reflexivity|].
  intros H. apply Hk, Hk', H.
Qed.

Lemma handleSendMessage_counts (w : World) :
  keys_ok w -> conserved w ->
  keys_ok (handleSendMessage w) /\ conserved (handleSendMessage w).
Proof.
  intros [Hn Hf] Hc.
  destruct (String.eqb_spec (trim (inputValue (ui w))) "") as [E | Hne].
  - rewrite handleSendMessage_empty by exact E. now repeat split.
  - destruct (handleSendMessage_effect w Hne) as (Ec & Ei & _ & _ & Et & _).
    unfold keys_ok, conserved in *. rewrite Ec, Ei, Et.
    unfold persists_by, awaited_user_saves in *.
    rewrite !filter_app, !length_app, map_app. simpl. repeat split.
    + apply NoDup_snoc; [exact Hn|]. rewrite Forall_forall in Hf. intros Hin.
      apply in_map_iff in Hin. destruct Hin as (p & E & Hp). apply Hf in Hp. lia.
    + apply Forall_app. split.
      * eapply Forall_impl; [|exact Hf]. unfold handleSendMessage.
        destruct (String.eqb _ _); simpl; intros; lia.
      * constructor; [|constructor]. unfold handleSendMessage.
        destruct (String.eqb_spec (trim (inputValue (ui w))) ""); [contradiction|].
        simpl. lia.
    + lia.
Qed.

Lemma step_counts (w : World) (e : Event) :
  keys_ok w -> conserved w -> keys_ok (step w e) /\ conserved (step w e).
Proof.
  intros Hk Hc. destruct e.
  9: { simpl. unfold elapse. destruct (dt <? 0); [now split|].
       match goal with |- context [fire ?l ?w0] =>
         destruct (fire_counts l w0) as (Eu & Eb & Ea & Hk');
         destruct (fire_frame l w0) as (_ & _ & _ & _ & Et & _)
       end.
       split; [apply Hk', Hk|].
       unfold conserved in *. simpl in *. rewrite Eu, Eb, Ea, Et. simpl.
       pose proof (filter_split_length _ (fun tm => timer_due tm <=? now w + dt) (timers w)).
       lia. }
  4: { simpl. destruct (_ && _); [now apply handleSendMessage_counts | now split]. }
  4: { simpl. unfold handleKeyPress. destruct (_ && _); [|now split].
       destruct (_ && _); [now apply handleSendMessage_counts | now split]. }
  5: { simpl. destruct (lookup_insert request (inserts w)) as [k|] eqn:E; [|now split].
       destruct Hk as [Hn Hf].
       pose proof (awaited_remove request k (inserts w) Hn E) as Ha.
       assert (Hk' : keys_ok (set_inserts (remove_insert request (inserts w)) w)).
       { split; simpl.
         - unfold remove_insert. clear - Hn. induction (inserts w) as [|[a b] l IH];
             simpl in *; [constructor|].
           inversion Hn; subst. destruct (Nat.eqb a request); simpl; [now apply IH|].
           constructor; [|now apply IH].
           intros Hin. apply in_map_iff in Hin. destruct Hin as (p & Ep & Hp).
           apply filter_In in Hp. destruct Hp as [Hp _].
           match goal with H : ~ In a _ |- _ => apply H end.
           rewrite <- Ep. now apply in_map.
         - unfold remove_insert. rewrite Forall_forall in *. intros p Hp.
           apply filter_In in Hp. now apply Hf. }
       unfold conserved, keys_ok in *.
       destruct k, resp as [[?|]|?]; simpl in *; split; try exact Hk';
         rewrite ?length_app; simpl; lia. }
  all: destruct Hk as [Hn Hf]; unfold conserved, keys_ok, persists_by in *;
    open_world w; handlers; simpl in *; cases;
    rewrite ?filter_app, ?length_app; simpl; rewrite ?app_nil_r;
    repeat split; try assumption; try lia.
  all: eapply Forall_impl; [|exact Hf]; simpl; intros; lia.
Qed.

(** X10: at every moment each insert of a user message that was issued
    is awaiting its response, or has its bot reply scheduled, or has had
    its bot reply issued, and these are all the bot replies there are: one
    per user message, never more, and none without a user message. *)
Theorem one_bot_reply_per_user_message :
  forall (w : World),
    reachable w ->
    List.length (persists_by "user" (calls w))
    = (List.length (awaited_user_saves (inserts w)) + List.length (timers w)
       + List.length (persists_by "bot" (calls w)))%nat
    /\ (List.length (persists_by "bot" (calls w))
        <= List.length (persists_by "user" (calls w)))%nat.
Proof.
  intros w [es ->].
  assert (G : forall es w0, keys_ok w0 -> conserved w0 ->
                            keys_ok (run w0 es) /\ conserved (run w0 es)).
  { clear. induction es as [|e es IH]; intros w0 Hk Hc; simpl; [now split|].
    destruct (step_counts w0 e Hk Hc) as [Hk' Hc']. now apply IH. }
  destruct (G es initialWorld) as [_ Hc].
  - split; constructor.
  - reflexivity.
  - unfold conserved in Hc. split; [exact Hc | lia].
Qed.

(** ** Trimming *)

Lemma white2_lead (a b : nat) : white2 a b = true -> white1 a = false.
Proof.
  unfold white2. intros H. apply andb_true_iff in H. destruct H as [H _].
  apply Nat.eqb_eq in H. now subst.
Qed.

Lemma white3_lead (a b c : nat) :
  white3 a b c = true -> white1 a = false /\ white2 a b = false.
Proof.
  unfold white3, white2. intros H.
  assert (Ha : a = 225%nat \/ a = 226%nat \/ a = 227%nat \/ a = 239%nat).
  { repeat (apply orb_true_iff in H; destruct H as [H | H]);
      repeat (apply andb_true_iff in H; destruct H as [H ?]);
      apply Nat.eqb_eq in H; tauto. }
  destruct Ha as [-> | [-> | [-> | ->]]]; now split.
Qed.

Lemma strip_blank (s : string) :
  Blank s -> forall fuel, (String.length s <= fuel)%nat -> strip white_prefix fuel s = "".
Proof.
  induction 1 as [|a r Ha _ IH|a b r Hab _ IH|a b c r Habc _ IH]; intros fuel Hf.
  - now destruct fuel.
  - destruct fuel as [|fuel]; [simpl in Hf; lia|].
    simpl. rewrite Ha. apply IH. simpl in Hf. lia.
  - destruct fuel as [|fuel]; [simpl in Hf; lia|].
    simpl. rewrite (white2_lead _ _ Hab), Hab. apply IH. simpl in Hf. lia.
  - destruct fuel as [|fuel]; [simpl in Hf; lia|].
    destruct (white3_lead _ _ _ Habc) as [H1 H2].
    simpl. rewrite H1, H2, Habc. apply IH. simpl in Hf. lia.
Qed.

Lemma trim_blank (s : string) : Blank s -> trim s = "".
Proof.
  intros H. unfold trim, trimStart. now rewrite (strip_blank s H).
Qed.

(** X11: a draft made only of white space (space, tab, line breaks, the
    Unicode spaces) trims to the empty string and is never sent: the
    handler does nothing, the send button is disabled, and neither the
    button nor any key changes anything. *)
Theorem blank_draft_is_never_sent :
  forall (w : World),
    Blank (inputValue (ui w)) ->
    trim (inputValue (ui w)) = ""
    /\ handleSendMessage w = w
    /\ sendDisabled (ui w) = true
    /\ step w SubmitForm = w
    /\ (forall pressed shiftKey, step w (KeyPress pressed shiftKey) = w).
Proof.
  intros w Hb. pose proof (trim_blank _ Hb) as E.
  pose proof (handleSendMessage_empty w E) as Hh.
  assert (Hd : sendDisabled (ui w) = true) by (unfold sendDisabled; now rewrite E).
  repeat split; try assumption.
  - simpl. rewrite Hd. now rewrite andb_false_r.
  - intros pressed shiftKey. simpl. unfold handleKeyPress. rewrite Hh.
    now repeat destruct (_ && _).
Qed.

Lemma append_nil_r (s : string) : s ++ "" = s.
Proof. induction s as [|a s IH]; simpl; [reflexivity | now rewrite IH]. Qed.

Lemma append_assoc (a b c : string) : (a ++ b) ++ c = a ++ (b ++ c).
Proof. induction a as [|x a IH]; simpl; [reflexivity | now rewrite IH]. Qed.

Lemma rev_string_acc (s : string) :
  forall acc, rev_string acc s = rev_string "" s ++ acc.
Proof.
  induction s as [|a s IH]; intros acc; simpl; [reflexivity|].
  rewrite (IH (String a acc)), (IH (String a "")), append_assoc. reflexivity.
Qed.

Lemma rev_string_append (a b : string) :
  rev_string "" (a ++ b) = rev_string "" b ++ rev_string "" a.
Proof.
  induction a as [|x a IH]; simpl; [now rewrite append_nil_r|].
  rewrite (rev_string_acc (a ++ b) (String x "")), (rev_string_acc a (String x "")),
    IH, append_assoc. reflexivity.
Qed.

Lemma rev_string_involutive (s : string) : rev_string "" (rev_string "" s) = s.
Proof.
  induction s as [|a s IH]; simpl; [reflexivity|].
  rewrite (rev_string_acc s (String a "")), rev_string_append, IH. reflexivity.
Qed.

Lemma rev_string_length (s : string) :
  String.length (rev_string "" s) = String.length s.
Proof.
  assert (G : forall s acc, String.length (rev_string acc s)
                            = (String.length s + String.length acc)%nat).
  { clear. induction s as [|a s IH]; intros acc; simpl; [reflexivity|].
    rewrite IH. simpl. lia. }
  rewrite G. simpl. lia.
Qed.

Lemma drop_length (k : nat) : forall s, (String.length (drop k s) <= String.length s)%nat.
Proof.
  induction k as [|k IH]; intros [|a s]; simpl; try lia.
  specialize (IH s). lia.
Qed.

Lemma drop_tail (k : nat) : forall s, exists z, s = z ++ drop k s.
Proof.
  induction k as [|k IH]; intros s.
  - exists "". now destruct s.
  - destruct s as [|a s]; [now exists ""|].
    destruct (IH s) as [z E]. exists (String a z). simpl. now rewrite <- E.
Qed.

Lemma strip_tail (f : string -> nat) (fuel : nat) :
  forall s, exists z, s = z ++ strip f fuel s.
Proof.
  induction fuel as [|fuel IH]; intros s; cbn [strip]; [now exists ""|].
  destruct (f s) as [|k]; [now exists ""|].
  destruct (drop_tail (S k) s) as [z1 E1].
  destruct (IH (drop (S k) s)) as [z2 E2].
  exists (z1 ++ z2). rewrite append_assoc, <- E2. exact E1.
Qed.

Lemma strip_fixed (f : string -> nat) (fuel : nat) (s : string) :
  f s = 0%nat -> strip f fuel s = s.
Proof. intros E. destruct fuel; simpl; [reflexivity | now rewrite E]. Qed.

Lemma strip_done (f : string -> nat) :
  f "" = 0%nat ->
  forall fuel s, (String.length s <= fuel)%nat -> f (strip f fuel s) = 0%nat.
Proof.
  intros F0. induction fuel as [|fuel IH]; intros s Hs; cbn [strip].
  - destruct s; [exact F0 | simpl in Hs; lia].
  - destruct (f s) as [|k] eqn:E; [exact E|].
    apply IH. destruct s as [|a s]; [simpl; lia|].
    simpl in *. pose proof (drop_length k s). lia.
Qed.

Lemma white_prefix_of_prefix (u v : string) :
  white_prefix (u ++ v) = 0%nat -> white_prefix u = 0%nat.
Proof.
  destruct u as [|a [|b [|c u]]]; simpl; try reflexivity.
  - destruct (white1 (nat_of_ascii a)); [discriminate | reflexivity].
  - destruct (white1 (nat_of_ascii a)); [discriminate|].
    destruct (white2 (nat_of_ascii a) (nat_of_ascii b)); [discriminate | reflexivity].
  - trivial.
Qed.

Lemma trimStart_clean (s : string) : white_prefix (trimStart s) = 0%nat.
Proof. unfold trimStart. now apply strip_done. Qed.

Lemma trimEnd_head (s : string) : exists v, s = trimEnd s ++ v.
Proof.
  unfold trimEnd.
  destruct (strip_tail white_suffix_rev (String.length s) (rev_string "" s)) as [z E].
  exists (rev_string "" z).
  rewrite <- rev_string_append, <- E. symmetry. apply rev_string_involutive.
Qed.

Lemma trimEnd_clean (s : string) :
  white_suffix_rev (rev_string "" (trimEnd s)) = 0%nat.
Proof.
  unfold trimEnd. rewrite rev_string_involutive.
  apply strip_done; [reflexivity | now rewrite rev_string_length].
Qed.

Lemma trim_fixed (s : string) :
  white_prefix s = 0%nat ->
  white_suffix_rev (rev_string "" s) = 0%nat ->
  trim s = s.
Proof.
  intros Hp Hs. unfold trim, trimStart. rewrite (strip_fixed _ _ _ Hp).
  unfold trimEnd. rewrite (strip_fixed _ _ _ Hs). apply rev_string_involutive.
Qed.

(** X12: trimming is idempotent, and what it returns neither starts nor
    ends with white space and is a substring of its argument; so the text
    of the user row that [handleSendMessage] persists is its own trim. *)
Theorem persisted_text_is_trimmed :
  forall (s : string),
    trim (trim s) = trim s
    /\ white_prefix (trim s) = 0%nat
    /\ white_suffix_rev (rev_string "" (trim s)) = 0%nat
    /\ (exists before after, s = before ++ trim s ++ after)
    /\ (forall w, inputValue (ui w) = s -> trim s <> "" ->
          exists sent,
            calls (handleSendMessage w)
            = (calls w ++ [persistCall (now w) sent "user"])%list
            /\ trim sent = sent /\ sent <> "").
Proof.
  intros s.
  assert (Hs : white_suffix_rev (rev_string "" (trim s)) = 0%nat)
    by apply trimEnd_clean.
  assert (Hp : white_prefix (trim s) = 0%nat).
  { unfold trim. destruct (trimEnd_head (trimStart s)) as [v E].
    apply (white_prefix_of_prefix _ v). rewrite <- E. apply trimStart_clean. }
  assert (Hi : trim (trim s) = trim s) by now apply trim_fixed.
  repeat split; try assumption.
  - destruct (strip_tail white_prefix (String.length s) s) as [before E].
    destruct (trimEnd_head (trimStart s)) as [after E'].
    exists before, after. unfold trim. fold (trimStart s) in E.
    rewrite <- E'. exact E.
  - intros w Ew Hne. exists (trim s). subst s.
    destruct (handleSendMessage_effect w Hne) as (Ec & _).
    now repeat split.
Qed.

(** ** Closing and opening again; time passing *)

(** X13: nothing is reset on close: after closing an open widget and
    opening it again the draft and the messages are the ones before, a
    new fetch is in flight and the old messages are hidden behind the
    loading placeholder until it settles; an error set before is gone. *)
Theorem draft_and_messages_survive_reopening :
  forall (w : World),
    reachable w ->
    isOpen (ui w) = true ->
    let again := run w [ClickClose; ClickOpen] in
    inputValue (ui again) = inputValue (ui w)
    /\ messages (ui again) = messages (ui w)
    /\ isOpen (ui again) = true
    /\ loading (ui again) = true
    /\ error (ui again) = None
    /\ fetches again = (fetches w ++ [fresh w])%list
    /\ renderMessages (ui again) (now again) = One loadingPlaceholder.
Proof.
  intros w Hr Ho again. assert (Hw : wf w) by now apply reachable_wf.
  assert (Hc : exists c, cleanup w = Some c).
  { destruct Hw as [_ _ _ _ Hop _]. rewrite Ho in Hop.
    destruct (cleanup w) as [c|]; [now exists c | discriminate]. }
  destruct Hc as [c Hc]. unfold again.
  open_world w. simpl in *. subst op cl. handlers. simpl.
  repeat split.
Qed.

(** X14: when time passes in a reachable world, the calls made are
    exactly the inserts of the bot replies that came due, in the order
    they were scheduled, each stamped with its own due time; the timers
    left are those not yet due; nothing else changes but the clock.  No
    pending reply is ever overdue or due later than 1000 ms from now. *)
Theorem elapsing_time_fires_due_replies_on_time :
  forall (w : World) (dt : Z),
    reachable w ->
    0 <= dt ->
    calls (step w (Elapse dt))
    = (calls w ++ fired (filter (fun tm => timer_due tm <=? now w + dt) (timers w)))%list
    /\ timers (step w (Elapse dt))
       = filter (fun tm => negb (timer_due tm <=? now w + dt)) (timers w)
    /\ now (step w (Elapse dt)) = now w + dt
    /\ ui (step w (Elapse dt)) = ui w
    /\ Forall (fun tm => now w < timer_due tm <= now w + 1000) (timers w).
Proof.
  intros w dt Hr Hd. assert (Hw : wf w) by now apply reachable_wf.
  destruct (elapse_frame dt w) as (Eu & _).
  split; [|split; [|split; [|split]]].
  - simpl. unfold elapse. destruct (Z.ltb_spec dt 0); [lia|]. simpl.
    match goal with |- context [fire ?l ?w0] =>
      destruct (fire_on_time l w0) as [Hc _] end.
    + apply StronglySorted_filter, Hw.
    + simpl. destruct Hw as [_ Ht _ _ _ _]. rewrite Forall_forall in *.
      intros x Hx. apply filter_In in Hx. specialize (Ht x (proj1 Hx)). lia.
    + exact Hc.
  - simpl. unfold elapse. destruct (Z.ltb_spec dt 0); [lia|]. simpl.
    match goal with |- context [fire ?l ?w0] =>
      destruct (fire_frame l w0) as (_ & _ & _ & _ & -> & _) end.
    reflexivity.
  - simpl. now apply elapse_now.
  - exact Eu.
  - apply Hw.
Qed.

End Facts.

(** ** Concrete runs *)

Lemma typed_reachable (draft : string) : reachable (typed draft).
Proof.
  exists [ClickOpen; FetchDone 0 (FetchResolved (Some []) None); InputChange draft].
  vm_compute; reflexivity.
Qed.

Lemma bot_reply_follows_settled_user_persist_witness :
  reachable (typed " hello ")
  /\ trim (inputValue (ui (typed " hello "))) <> ""
  /\ In (1500,
          Insert "messages"
            [mkInsertRow (String (ascii_of_nat 34)
                            ("hello" ++ String (ascii_of_nat 34)
                                          " 라고 입력하셨습니다. 저는 고전적인 봇입니다."))
                         "bot" (toISOString 1500)])
        (calls (run (typed " hello ")
                    [SubmitForm; Elapse 500; InsertDone 2 (InsertRejected "offline");
                     Elapse 400; Elapse 600])).
Proof.
  assert (R : reachable (typed " hello ")) by apply typed_reachable.
  assert (N : trim (inputValue (ui (typed " hello "))) <> "") by (vm_compute; discriminate).
  split; [exact R|]. split; [exact N|].
  pose proof (@bot_reply_follows_settled_user_persist utcHost (typed " hello ")
             [Elapse 500] [Elapse 400; Elapse 600] (InsertRejected "offline") R N) as H.
  assert (B : forall resp', ~ In (InsertDone (fresh (typed " hello ")) resp') [Elapse 500]).
  { intros resp' [E|[]]. discriminate. }
  specialize (H B).
  vm_compute in H.
  vm_compute.
  apply H. discriminate.
Defined.

Lemma submit_never_touches_messages_witness :
  (forall e,
     In e [SubmitForm; InsertDone 2 (InsertResolved None); Elapse 1000;
           InsertDone 3 (InsertResolved None)] ->
     (forall channel payloadNew, e <> RemoteInsert channel payloadNew)
     /\ (forall r resp, e <> FetchDone r resp))
  /\ messages (ui (run (typed "hello")
                       [SubmitForm; InsertDone 2 (InsertResolved None); Elapse 1000;
                        InsertDone 3 (InsertResolved None)]))
     = messages (ui (typed "hello")).
Proof.
  assert (Q : forall e,
             In e [SubmitForm; InsertDone 2 (InsertResolved None); Elapse 1000;
                   InsertDone 3 (InsertResolved None)] ->
             (forall channel payloadNew, e <> RemoteInsert channel payloadNew)
             /\ (forall r resp, e <> FetchDone r resp)).
  { intros e [<- | [<- | [<- | [<- | []]]]]; split; discriminate. }
  split; [exact Q|].
  exact (proj2 (proj2 (proj2 (proj2
           (@submit_never_touches_messages utcHost (typed "hello"))))) _ Q).
Defined.

(** C5, as stated, fails: no row is pushed on the subscription, yet the
    messages after the submission differ from those before it, the user
    message having come with the history fetched on reopening. *)
Lemma fetched_history_shows_the_sent_message :
  let es := [SubmitForm; InsertDone 2 (InsertResolved None); ClickClose; ClickOpen;
             FetchDone 3 (FetchResolved (Some [rowHello]) None)] in
  (forall e, In e es -> forall channel payloadNew, e <> RemoteInsert channel payloadNew)
  /\ messages (ui (typed "hello")) = []
  /\ persists (run (typed "hello") es)
     = [(0, Insert "messages" [mkInsertRow "hello" "user" "1970-01-01T00:00:00.000Z"])]
  /\ messages (ui (run (typed "hello") es)) = [rowHello].
Proof.
  split.
  - intros e [<- | [<- | [<- | [<- | [<- | []]]]]]; discriminate.
  - vm_compute. repeat split.
Qed.


(** C2, as stated, fails: while the history is loading, and likewise
    once the fetch has failed, [handleSendMessage] persists the draft. *)
Lemma handleSendMessage_persists_while_loading_or_failed :
  let failed := step (reloading "hi") (FetchDone 2 (FetchRejected "offline")) in
  loading (ui (reloading "hi")) = true
  /\ persists (reloading "hi") = []
  /\ persists (handleSendMessage (reloading "hi")) = [persistCall 0 "hi" "user"]
  /\ error (ui failed) <> None
  /\ persists failed = []
  /\ persists (handleSendMessage failed) = [persistCall 0 "hi" "user"].
Proof. vm_compute. repeat split. discriminate. Qed.

Lemma reloading_reachable (draft : string) : reachable (reloading draft).
Proof.
  exists [ClickOpen; FetchDone 0 (FetchResolved (Some []) None); InputChange draft;
          ClickClose; ClickOpen].
  vm_compute; reflexivity.
Qed.

Lemma submit_blocked_by_empty_draft_or_disabled_form_witness :
  reachable (reloading "hi")
  /\ loading (ui (reloading "hi")) = true
  /\ step (reloading "hi") SubmitForm = reloading "hi"
  /\ step (reloading "hi") (KeyPress "Enter" false) = reloading "hi".
Proof.
  assert (R : reachable (reloading "hi")) by apply reloading_reachable.
  assert (L : loading (ui (reloading "hi")) = true) by (vm_compute; reflexivity).
  split; [exact R|]. split; [exact L|].
  destruct (@submit_blocked_by_empty_draft_or_disabled_form utcHost (reloading "hi") R)
    as (_ & H & _).
  destruct (H (or_intror (or_introl L))) as [Hs Hk].
  split; [exact Hs | apply Hk].
Defined.

(** C7, as stated, fails: the insert of the user message has been issued
    and is awaiting its response, and the draft is still in the input. *)
Lemma draft_kept_while_insert_pending :
  let w := run (typed "hello") [SubmitForm; Elapse 500] in
  persists w = [persistCall 0 "hello" "user"]
  /\ inserts w = [(2%nat, AfterUserSave "hello")]
  /\ inputValue (ui w) = "hello".
Proof. vm_compute. repeat split. Qed.

Lemma draft_cleared_when_user_persist_settles_witness :
  reachable (typed "hello")
  /\ trim (inputValue (ui (typed "hello"))) <> ""
  /\ inputValue (ui (run (typed "hello") [SubmitForm; Elapse 500])) = "hello"
  /\ inputValue (ui (run (typed "hello")
                         [SubmitForm; Elapse 500; InsertDone 2 (InsertResolved (Some "denied"))]))
     = "".
Proof.
  assert (R : reachable (typed "hello")) by apply typed_reachable.
  assert (N : trim (inputValue (ui (typed "hello"))) <> "") by (vm_compute; discriminate).
  split; [exact R|]. split; [exact N|].
  assert (B : forall resp', ~ In (InsertDone (fresh (typed "hello")) resp') [Elapse 500]).
  { intros resp' [E|[]]. discriminate. }
  destruct (@draft_cleared_when_user_persist_settles utcHost (typed "hello")
              [Elapse 500] (InsertResolved (Some "denied")) R N B) as (_ & Hkeep & Hclear).
  split.
  - vm_compute in Hkeep. vm_compute. apply Hkeep. reflexivity.
  - vm_compute in Hclear. vm_compute. exact Hclear.
Defined.

(** C3, as stated, fails: the response to the user insert takes 500 ms;
    1000 ms after the user insert was issued no bot insert has been
    issued; it is issued at 1500 ms. *)
Lemma bot_reply_later_than_1000ms_after_user_call :
  let w := run (typed "hello")
               [SubmitForm; Elapse 500; InsertDone 2 (InsertResolved None); Elapse 500] in
  now w = 1000
  /\ persists w
     = [(0, Insert "messages" [mkInsertRow "hello" "user" (toISOString 0)])]
  /\ persists (step w (Elapse 500))
     = [(0, Insert "messages" [mkInsertRow "hello" "user" (toISOString 0)]);
        (1500,
         Insert "messages"
           [mkInsertRow (String (ascii_of_nat 34)
                           ("hello" ++ String (ascii_of_nat 34)
                                         " 라고 입력하셨습니다. 저는 고전적인 봇입니다."))
                        "bot" (toISOString 1500)])].
Proof. vm_compute. repeat split. Qed.

Lemma bot_reply_1000ms_after_user_persist_settles_witness :
  reachable (typed "hello")
  /\ trim (inputValue (ui (typed "hello"))) <> ""
  /\ 0 <= 500
  /\ 1000 <= 1000
  /\ In (1500,
          Insert "messages"
            [mkInsertRow (String (ascii_of_nat 34)
                            ("hello" ++ String (ascii_of_nat 34)
                                          " 라고 입력하셨습니다. 저는 고전적인 봇입니다."))
                         "bot" (toISOString 1500)])
        (calls (run (typed "hello")
                    [SubmitForm; Elapse 500; InsertDone 2 (InsertResolved None);
                     Elapse 1000])).
Proof.
  assert (R : reachable (typed "hello")) by apply typed_reachable.
  assert (N : trim (inputValue (ui (typed "hello"))) <> "") by (vm_compute; discriminate).
  assert (L : 0 <= 500) by lia.
  assert (W : 1000 <= 1000) by lia.
  split; [exact R|]. split; [exact N|]. split; [exact L|]. split; [exact W|].
  destruct (@bot_reply_1000ms_after_user_persist_settles utcHost (typed "hello")
              500 1000 (InsertResolved None) R N L W) as (_ & _ & _ & H & _).
  vm_compute in H. vm_compute. exact H.
Defined.

Lemma fetchMessages_outcomes_witness :
  mem 0 (fetches (step initialWorld ClickOpen)) = true
  /\ messages (ui (run initialWorld [ClickOpen; FetchDone 0 (FetchResolved None (Some "denied"))]))
     = []
  /\ error (ui (run initialWorld [ClickOpen; FetchDone 0 (FetchResolved None (Some "denied"))]))
     = Some fetchFailed
  /\ selects (run initialWorld [ClickOpen; FetchDone 0 (FetchResolved None (Some "denied"))])
     = selects (step initialWorld ClickOpen).
Proof.
  assert (M : mem 0 (fetches (step initialWorld ClickOpen)) = true) by reflexivity.
  split; [exact M|].
  destruct (@fetchMessages_outcomes utcHost (step initialWorld ClickOpen)) as (_ & H & S).
  destruct (H 0%nat (FetchResolved None (Some "denied")) M) as (_ & _ & _ & _ & _ & Hm & He).
  split; [vm_compute in Hm; vm_compute; exact Hm|].
  split; [vm_compute in He; vm_compute; exact He|].
  specialize (S (FetchDone 0 (FetchResolved None (Some "denied")))).
  vm_compute in S. vm_compute. apply S. discriminate.
Defined.

Lemma open_is_idempotent_witness :
  reachable initialWorld
  /\ forallb (fun e => negb (is_toggle e))
             [FetchDone 0 (FetchResolved (Some [rowA]) None); RemoteInsert 1 rowB] = true
  /\ isOpen (ui initialWorld) = false
  /\ step (step initialWorld ClickOpen) ClickOpen = step initialWorld ClickOpen
  /\ channels (step (run (step initialWorld ClickOpen)
                         [FetchDone 0 (FetchResolved (Some [rowA]) None);
                          RemoteInsert 1 rowB])
                    ClickClose) = [].
Proof.
  assert (R : reachable initialWorld) by (exists []; reflexivity).
  assert (E : forallb (fun e => negb (is_toggle e))
                [FetchDone 0 (FetchResolved (Some [rowA]) None); RemoteInsert 1 rowB] = true)
    by reflexivity.
  assert (C : isOpen (ui initialWorld) = false) by reflexivity.
  split; [exact R|]. split; [exact E|]. split; [exact C|].
  destruct (@open_is_idempotent utcHost initialWorld _ R E) as (H1 & _ & _ & H4).
  split; [exact H1|].
  destruct (H4 C) as (_ & _ & _ & _ & _ & _ & H & _).
  exact H.
Defined.




(** ** Concrete runs for the further properties *)

Lemma reachable_run (w : World) (es : list Event) :
  reachable w -> reachable (run w es).
Proof.
  intros [tr ->]. exists (tr ++ es)%list. unfold run. now rewrite fold_left_app.
Qed.

Lemma scheduled_reachable : reachable scheduled.
Proof. apply reachable_run, typed_reachable. Qed.

Lemma failed_reachable : reachable failed.
Proof. apply reachable_run. exists []. reflexivity. Qed.


Lemma resubmit_before_settle_persists_twice_witness :
  isOpen (ui (typed "hello")) = true
  /\ sendDisabled (ui (typed "hello")) = false
  /\ ui (step (step (typed "hello") SubmitForm) SubmitForm) = ui (typed "hello").
Proof.
  assert (O : isOpen (ui (typed "hello")) = true) by (vm_compute; reflexivity).
  assert (S : sendDisabled (ui (typed "hello")) = false) by (vm_compute; reflexivity).
  split; [exact O|]. split; [exact S|].
  exact (proj2 (proj2 (@resubmit_before_settle_persists_twice utcHost (typed "hello") O S))).
Defined.

Lemma opened_is_reachable : reachable (step initialWorld ClickOpen).
Proof. exists [ClickOpen]. reflexivity. Qed.

Lemma close_cancels_nothing_witness :
  reachable (step initialWorld ClickOpen)
  /\ timers (step initialWorld ClickOpen) = []
  /\ mem 0 (fetches (step initialWorld ClickOpen)) = true
  /\ messages (ui (step (step (step initialWorld ClickOpen) ClickClose)
                        (FetchDone 0 (FetchResolved (Some [rowA]) None)))) = [rowA]
  /\ reachable scheduled
  /\ In (mkTimer 1000 "hello") (timers scheduled)
  /\ timers (step scheduled ClickClose) = timers scheduled.
Proof.
  assert (R : reachable (step initialWorld ClickOpen)) by apply opened_is_reachable.
  assert (M : mem 0 (fetches (step initialWorld ClickOpen)) = true)
    by (vm_compute; reflexivity).
  assert (R' : reachable scheduled) by apply scheduled_reachable.
  assert (T : In (mkTimer 1000 "hello") (timers scheduled)) by (vm_compute; now left).
  split; [exact R|]. split; [vm_compute; reflexivity|]. split; [exact M|].
  split; [exact (proj1 (proj2 (proj2 (@close_cancels_nothing utcHost _ R)) 0%nat [rowA] M))|].
  split; [exact R'|]. split; [exact T|].
  exact (proj1 (proj1 (@close_cancels_nothing utcHost scheduled R'))).
Defined.

Lemma error_stays_until_reopened_witness :
  reachable failed
  /\ error (ui failed) <> None
  /\ forallb (fun e => negb (is_open_click e))
             [FetchDone 0 (FetchResolved (Some [rowA]) None); ClickClose] = true
  /\ error (ui (run failed [FetchDone 0 (FetchResolved (Some [rowA]) None); ClickClose]))
     <> None.
Proof.
  assert (R : reachable failed) by apply failed_reachable.
  assert (E : error (ui failed) <> None) by (vm_compute; discriminate).
  assert (F : forallb (fun e => negb (is_open_click e))
                [FetchDone 0 (FetchResolved (Some [rowA]) None); ClickClose] = true)
    by reflexivity.
  split; [exact R|]. split; [exact E|]. split; [exact F|].
  exact (proj1 (@error_stays_until_reopened utcHost failed _ R E F)).
Defined.

Lemma deliveries_append_and_first_wins_witness :
  In rowA [rowA]
  /\ id rowC = id rowA
  /\ deliver [rowA] [rowC; rowB] = deliver [rowA] [rowB].
Proof.
  assert (I : In rowA [rowA]) by now left.
  assert (E : id rowC = id rowA) by reflexivity.
  split; [exact I|]. split; [exact E|].
  exact (proj1 (proj2 (proj2 (deliveries_append_and_first_wins [rowA] [rowB])))
           rowA rowC I E).
Defined.

Lemma rendered_keys_are_distinct_witness :
  NoDup (map id [rowA])
  /\ Forall (fun m => Js.truthy (id m) = true) ([rowA] ++ [rowC; rowB])
  /\ (Forall (fun m => is_number (id m) = true) ([rowA] ++ [rowC; rowB])
      \/ Forall (fun m => is_text (id m) = true) ([rowA] ++ [rowC; rowB]))
  /\ NoDup (map (fun e => option_map reactKey (key e))
                (map renderEntry (deliver [rowA] [rowC; rowB]))).
Proof.
  assert (N : NoDup (map id [rowA])) by (repeat constructor; simpl; tauto).
  assert (P : Forall (fun m => Js.truthy (id m) = true) ([rowA] ++ [rowC; rowB]))
    by now repeat constructor.
  assert (K : Forall (fun m => is_number (id m) = true) ([rowA] ++ [rowC; rowB])
              \/ Forall (fun m => is_text (id m) = true) ([rowA] ++ [rowC; rowB]))
    by (left; now repeat constructor).
  split; [exact N|]. split; [exact P|]. split; [exact K|].
  exact (proj1 (proj2 (@rendered_keys_are_distinct utcHost [rowA] [rowC; rowB] N P K))).
Defined.

Lemma subscriptions_are_balanced_witness :
  reachable (reloading "hi")
  /\ subscribed (reloading "hi") = (removed (reloading "hi") ++ channels (reloading "hi"))%list.
Proof.
  assert (R : reachable (reloading "hi")) by apply reloading_reachable.
  split; [exact R|].
  exact (proj1 (@subscriptions_are_balanced utcHost (reloading "hi") R)).
Defined.

Lemma loading_means_fetch_in_flight_witness :
  reachable (reloading "hi")
  /\ isOpen (ui (reloading "hi")) = true
  /\ loading (ui (reloading "hi")) = true
  /\ fetches (reloading "hi") <> [].
Proof.
  assert (R : reachable (reloading "hi")) by apply reloading_reachable.
  assert (O : isOpen (ui (reloading "hi")) = true) by (vm_compute; reflexivity).
  assert (L : loading (ui (reloading "hi")) = true) by (vm_compute; reflexivity).
  split; [exact R|]. split; [exact O|]. split; [exact L|].
  exact (proj1 (@loading_means_fetch_in_flight utcHost (reloading "hi") R O L)).
Defined.

Lemma every_call_is_well_formed_witness :
  reachable scheduled
  /\ In (0, Insert "messages" [mkInsertRow "hello" "user" (toISOString 0)]) (calls scheduled)
  /\ ("messages" = "messages"
      /\ exists text sender,
           [mkInsertRow "hello" "user" (toISOString 0)]
           = [mkInsertRow text sender (toISOString 0)]
           /\ ((sender = "user" /\ text <> "" /\ exists draft, text = trim draft)
               \/ (sender = "bot"
                   /\ exists draft,
                        trim draft <> ""
                        /\ text = String (ascii_of_nat 34)
                                    (trim draft
                                     ++ String (ascii_of_nat 34)
                                          " 라고 입력하셨습니다. 저는 고전적인 봇입니다.")))).
Proof.
  assert (R : reachable scheduled) by apply scheduled_reachable.
  assert (I : In (0, Insert "messages" [mkInsertRow "hello" "user" (toISOString 0)])
                 (calls scheduled)).
  { vm_compute. right. right. now left. }
  split; [exact R|]. split; [exact I|].
  exact (@every_call_is_well_formed utcHost scheduled 0 _ R I).
Defined.

Lemma one_bot_reply_per_user_message_witness :
  reachable scheduled
  /\ (List.length (persists_by "bot" (calls scheduled))
      <= List.length (persists_by "user" (calls scheduled)))%nat.
Proof.
  assert (R : reachable scheduled) by apply scheduled_reachable.
  split; [exact R|].
  exact (proj2 (@one_bot_reply_per_user_message utcHost scheduled R)).
Defined.

Lemma blank_draft_is_never_sent_witness :
  Blank (inputValue (ui (typed "  ")))
  /\ handleSendMessage (typed "  ") = typed "  ".
Proof.
  assert (B : Blank (inputValue (ui (typed "  ")))).
  { vm_compute. apply Blank_one; [reflexivity|].
    apply Blank_one; [reflexivity|]. apply Blank_empty. }
  split; [exact B|].
  exact (proj1 (proj2 (@blank_draft_is_never_sent utcHost (typed "  ") B))).
Defined.

Lemma persisted_text_is_trimmed_witness :
  inputValue (ui (typed " hello ")) = " hello "
  /\ trim " hello " <> ""
  /\ exists sent,
       calls (handleSendMessage (typed " hello "))
       = (calls (typed " hello ") ++ [persistCall (now (typed " hello ")) sent "user"])%list
       /\ trim sent = sent /\ sent <> "".
Proof.
  assert (E : inputValue (ui (typed " hello ")) = " hello ") by (vm_compute; reflexivity).
  assert (N : trim " hello " <> "") by (vm_compute; discriminate).
  split; [exact E|]. split; [exact N|].
  exact (proj2 (proj2 (proj2 (proj2 (@persisted_text_is_trimmed utcHost " hello "))))
           (typed " hello ") E N).
Defined.

Lemma draft_and_messages_survive_reopening_witness :
  reachable (typed "hello")
  /\ isOpen (ui (typed "hello")) = true
  /\ inputValue (ui (run (typed "hello") [ClickClose; ClickOpen]))
     = inputValue (ui (typed "hello")).
Proof.
  assert (R : reachable (typed "hello")) by apply typed_reachable.
  assert (O : isOpen (ui (typed "hello")) = true) by (vm_compute; reflexivity).
  split; [exact R|]. split; [exact O|].
  exact (proj1 (@draft_and_messages_survive_reopening utcHost (typed "hello") R O)).
Defined.

Lemma elapsing_time_fires_due_replies_on_time_witness :
  reachable scheduled
  /\ 0 <= 1000
  /\ calls (step scheduled (Elapse 1000))
     = (calls scheduled
        ++ fired (filter (fun tm => timer_due tm <=? now scheduled + 1000)
                         (timers scheduled)))%list.
Proof.
  assert (R : reachable scheduled) by apply scheduled_reachable.
  assert (D : 0 <= 1000) by lia.
  split; [exact R|]. split; [exact D|].
  exact (proj1 (@elapsing_time_fires_due_replies_on_time utcHost scheduled 1000 R D)).
Defined.
